(** * Control socket of the audio player daemon: command parsing and dispatch

    Shallow embedding of [src/service/socket_server.c].

    C strings are lists of bytes ([ascii]); a [char*] is the list of bytes
    found from the pointer on, and the string it denotes stops before the
    first NUL byte ([cstring]).  The track manager is an external
    collaborator: its three entry points are an interface ([TrackManager]),
    and every call made through it is recorded in a call log.  The handlers,
    the command table and [process_command] are state-passing functions over
    that world.  The accept loop and the initialisation run against an
    explicit description of what the operating system answers. *)

From Stdlib Require Import List String Ascii ZArith Lia Bool Arith.
From Stdlib Require Import DecimalString.
From Stdlib Require DecimalFacts DecimalPos DecimalZ.
Import ListNotations.

Local Open Scope Z_scope.

(** ** C strings and the libc functions the file uses *)

Module CStr.

Definition cstr := list ascii.

(** A string literal of the source. *)
Definition lit (s : string) : cstr := list_ascii_of_string s.

Definition NUL : ascii := Ascii.zero.
Definition SPACE : ascii := " "%char.

(** The string a [char*] denotes: the bytes before the first NUL. *)
Fixpoint cstring (bytes : list ascii) : cstr :=
  match bytes with
  | [] => []
  | c :: rest => if Ascii.eqb c NUL then [] else c :: cstring rest
  end.

(** [strlen]. *)
Definition strlen (s : list ascii) : nat := List.length (cstring s).

(** [strncpy dst src n]: the [n] bytes written to [dst]; the source string,
    cut at [n] bytes, then NUL padding up to [n]. *)
Definition strncpy (src : list ascii) (n : nat) : list ascii :=
  let body := firstn n (cstring src) in
  body ++ repeat NUL (n - List.length body).

(** Membership of a byte in a delimiter set given as a string. *)
Fixpoint is_delim (c : ascii) (delim : cstr) : bool :=
  match delim with
  | [] => false
  | d :: ds => if Ascii.eqb c d then true else is_delim c ds
  end.

(** [strspn s delim]: length of the longest prefix made of delimiters. *)
Fixpoint strspn (s : cstr) (delim : cstr) : nat :=
  match s with
  | [] => O
  | c :: rest => if is_delim c delim then S (strspn rest delim) else O
  end.

(** [strcspn s delim]: length of the longest prefix free of delimiters. *)
Fixpoint strcspn (s : cstr) (delim : cstr) : nat :=
  match s with
  | [] => O
  | c :: rest => if is_delim c delim then O else S (strcspn rest delim)
  end.

(** [strtok s delim] with its hidden save pointer made explicit.  [s] is
    [None] for a NULL first argument, in which case scanning resumes at
    [save].  The result is the token (or [None] for NULL) and the new save
    pointer: the bytes after the delimiter that ended the token, or the empty
    string when the token ran to the end. *)
Definition strtok (s : option (list ascii)) (delim : cstr) (save : list ascii)
  : option cstr * list ascii :=
  let s0 := cstring (match s with Some p => p | None => save end) in
  let s1 := skipn (strspn s0 delim) s0 in
  match s1 with
  | [] => (None, [])
  | _ :: _ =>
      let n := strcspn s1 delim in
      (Some (firstn n s1), skipn (S n) s1)
  end.

(** [strcmp]: only the sign is specified by C; bytes compare as unsigned. *)
Fixpoint strcmp (a b : cstr) : Z :=
  match a, b with
  | [], [] => 0
  | [], _ :: _ => -1
  | _ :: _, [] => 1
  | x :: a', y :: b' =>
      if (N_of_ascii x <? N_of_ascii y)%N then -1
      else if (N_of_ascii y <? N_of_ascii x)%N then 1
      else strcmp a' b'
  end.

(** [snprintf response resp_size fmt ...] where [out] is the fully formatted
    text: at most [resp_size - 1] bytes are stored (then a NUL); with a zero
    size nothing is written and the buffer keeps its content. *)
Definition snprintf (response : cstr) (resp_size : nat) (out : cstr) : cstr :=
  match resp_size with
  | O => response
  | S room => firstn room out
  end.

(** ["%d"]: decimal text of an [int]. *)
Definition fmt_d (n : Z) : cstr :=
  lit (NilZero.string_of_int (Z.to_int n)).

End CStr.

Import CStr.

(** ** The track manager, seen from the socket server *)

(** The three entry points of the track manager that the handlers call
    ([track_manager_play], [track_manager_stop], [track_manager_stop_all]).
    Each answers a boolean and may change the manager. *)
Class TrackManager (M : Type) := {
  track_manager_play : M -> cstr -> bool * M;
  track_manager_stop : M -> cstr -> bool * M;
  track_manager_stop_all : M -> bool * M
}.

(** A call made into the track manager. *)
Inductive tm_call :=
| CallPlay (track_id : cstr)
| CallStop (track_id : cstr)
| CallStopAll.

(** What a handler runs against: the manager and the log of calls made. *)
Record world (M : Type) := mkWorld {
  mgr : M;
  calls : list tm_call
}.
Arguments mkWorld {M} _ _.
Arguments mgr {M} _.
Arguments calls {M} _.

(** State passing over the world. *)
Definition Sub (M A : Type) : Type := world M -> A * world M.

Definition ret {M A} (a : A) : Sub M A := fun w => (a, w).

Definition bind {M A B} (c : Sub M A) (k : A -> Sub M B) : Sub M B :=
  fun w => let (a, w') := c w in k a w'.

Notation "x <- c ;; k" := (bind c (fun x => k))
  (at level 61, c at next level, right associativity).

(** ** Command handlers *)

Section Handlers.

Context {M : Type} `{TrackManager M}.

Definition call_play (track_id : cstr) : Sub M bool :=
  fun w => let (ok, m') := track_manager_play (mgr w) track_id in
           (ok, mkWorld m' (calls w ++ [CallPlay track_id])).

Definition call_stop (track_id : cstr) : Sub M bool :=
  fun w => let (ok, m') := track_manager_stop (mgr w) track_id in
           (ok, mkWorld m' (calls w ++ [CallStop track_id])).

Definition call_stop_all : Sub M bool :=
  fun w => let (ok, m') := track_manager_stop_all (mgr w) in
           (ok, mkWorld m' (calls w ++ [CallStopAll])).

(** A handler receives the argument pointer (NULL is [None]), the response
    buffer and its size; it answers the [int] result and the new content of
    the response buffer. *)
Definition handler : Type := option (list ascii) -> cstr -> nat -> Sub M (Z * cstr).

(** [!track_id || !track_id[0]] *)
Definition missing (track_id : option (list ascii)) : bool :=
  match track_id with
  | None => true
  | Some [] => true
  | Some (c :: _) => Ascii.eqb c NUL
  end.

(** The text ["%s"] prints for the argument pointer. *)
Definition arg_text (track_id : option (list ascii)) : cstr :=
  match track_id with
  | Some p => cstring p
  | None => []
  end.

Definition handle_play : handler := fun track_id response resp_size =>
  if missing track_id
  then ret (-1, snprintf response resp_size (lit "ERROR: Missing track ID"))
  else
    ok <- call_play (arg_text track_id) ;;
    if (ok : bool)
    then ret (0, snprintf response resp_size
                   (lit "OK: Playing track " ++ arg_text track_id))
    else ret (-1, snprintf response resp_size
                    (lit "ERROR: Failed to play track " ++ arg_text track_id)).

Definition handle_stop : handler := fun track_id response resp_size =>
  if missing track_id
  then ret (-1, snprintf response resp_size (lit "ERROR: Missing track ID"))
  else
    ok <- call_stop (arg_text track_id) ;;
    if (ok : bool)
    then ret (0, snprintf response resp_size
                   (lit "OK: Stopped track " ++ arg_text track_id))
    else ret (-1, snprintf response resp_size
                    (lit "ERROR: Failed to stop track " ++ arg_text track_id)).

Definition handle_stop_all : handler := fun _arg response resp_size =>
  ok <- call_stop_all ;;
  if (ok : bool)
  then ret (0, snprintf response resp_size (lit "OK: Stopped all tracks"))
  else ret (-1, snprintf response resp_size (lit "ERROR: Failed to stop all tracks")).

Definition handle_list : handler := fun _arg response resp_size =>
  ret (0, snprintf response resp_size (lit "OK: Track listing not yet implemented")).

Definition handle_status : handler := fun _arg response resp_size =>
  ret (0, snprintf response resp_size (lit "OK: Status not yet implemented")).

Definition handle_reload : handler := fun _arg response resp_size =>
  ret (0, snprintf response resp_size (lit "OK: Reload signal sent")).

(** The command table, in source order (the NULL terminator is the end of
    the list). *)
Definition COMMANDS : list (cstr * handler) :=
  [ (lit "play", handle_play);
    (lit "stop", handle_stop);
    (lit "stop-all", handle_stop_all);
    (lit "list", handle_list);
    (lit "status", handle_status);
    (lit "reload", handle_reload) ].

(** The lookup loop of [process_command]: first entry whose name compares
    equal under [strcmp]. *)
Fixpoint find_handler (table : list (cstr * handler)) (cmd : cstr) : option handler :=
  match table with
  | [] => None
  | (name, h) :: rest =>
      if strcmp name cmd =? 0 then Some h else find_handler rest cmd
  end.

(** [sizeof(cmd_buf)] *)
Definition CMD_BUF_SIZE : nat := 256.

(** The two [strtok] calls on the local copy of the command: the keyword
    pointer and the argument pointer. *)
Definition split_command (cmd_str : list ascii) : option cstr * option cstr :=
  let cmd_buf := strncpy cmd_str (CMD_BUF_SIZE - 1) ++ [NUL] in
  let '(cmd, save) := strtok (Some cmd_buf) (lit " ") [] in
  let '(arg, _) := strtok None (lit "") save in
  (cmd, arg).

Definition process_command (cmd_str : list ascii) (response : cstr) (resp_size : nat)
  : Sub M (Z * cstr) :=
  let '(cmd, arg) := split_command cmd_str in
  match cmd with
  | None => ret (-1, snprintf response resp_size (lit "ERROR: Empty command"))
  | Some c =>
      match find_handler COMMANDS c with
      | Some h => h arg response resp_size
      | None =>
          ret (-1, snprintf response resp_size
                     (lit "ERROR: Unknown command '" ++ c ++ lit "'"))
      end
  end.

End Handlers.

(** ** The accept loop *)

Module Server.

(** [sizeof(buffer)] and [sizeof(response)] in [socket_server_thread]. *)
Definition BUFFER_SIZE : nat := 1024.
Definition RESPONSE_SIZE : nat := 1024.

(** What [read] answers: an error (a negative count), or the bytes the
    kernel has for this connection (none at end of file). *)
Inductive read_result :=
| ReadError
| ReadBytes (data : list ascii).

(** What the environment answers during one turn of the loop: the value of
    [ctx->running] at the loop test, what [accept] returns, the value of
    [ctx->running] read after a failed accept, and what [read] finds. *)
Record turn := mkTurn {
  running_at_test : bool;
  accept_ret : Z;
  running_after_accept : bool;
  read_ans : read_result
}.

(** What the thread does that is visible outside it. *)
Inductive action :=
| LogInfo (msg : cstr)
| LogError (msg : cstr)
| LogDebug (msg : cstr)
| Accept (ret : Z)
| Read (fd : Z) (count : nat) (ret : Z)
| Write (fd : Z) (data : cstr)
| Close (fd : Z).

(** How a run over finitely many turns ends: the loop test saw the flag
    cleared, or the thread is parked in [accept] waiting for more. *)
Inductive ending := Stopped | Waiting.

(** [read(client_fd, buffer, count)]: the count returned and the bytes
    stored. *)
Definition sys_read (ans : read_result) (count : nat) : Z * list ascii :=
  match ans with
  | ReadError => (-1, [])
  | ReadBytes data => (Z.of_nat (List.length (firstn count data)), firstn count data)
  end.

Section Loop.

Context {M : Type} `{TrackManager M}.

(** The [while (ctx->running)] loop, one environment turn per iteration. *)
Fixpoint server_loop (turns : list turn) (response : cstr) (w : world M)
  : list action * ending * cstr * world M :=
  match turns with
  | [] => ([], Waiting, response, w)
  | t :: rest =>
      if negb (running_at_test t) then ([], Stopped, response, w)
      else
        let client_fd := accept_ret t in
        if client_fd <? 0 then
          let '(acts, e, r, w') := server_loop rest response w in
          ((Accept client_fd ::
            (if running_after_accept t
             then [LogError (lit "Socket accept failed")] else [])) ++ acts,
           e, r, w')
        else
          let '(bytes_read, stored) := sys_read (read_ans t) (BUFFER_SIZE - 1) in
          if bytes_read >? 0 then
            let buffer := stored ++ [NUL] in
            let '((_, response'), w1) :=
              process_command buffer response RESPONSE_SIZE w in
            let '(acts, e, r, w') := server_loop rest response' w1 in
            (Accept client_fd ::
             Read client_fd (BUFFER_SIZE - 1) bytes_read ::
             LogDebug (lit "Received command: " ++ cstring buffer) ::
             Write client_fd (firstn (strlen response') response') ::
             Close client_fd :: acts,
             e, r, w')
          else
            let '(acts, e, r, w') := server_loop rest response w in
            (Accept client_fd ::
             Read client_fd (BUFFER_SIZE - 1) bytes_read ::
             Close client_fd :: acts,
             e, r, w')
  end.

(** [socket_server_thread]: the two log lines around the loop. *)
Definition socket_server_thread (turns : list turn) (response : cstr) (w : world M)
  : list action * ending * cstr * world M :=
  let '(acts, e, r, w') := server_loop turns response w in
  (LogInfo (lit "Socket server thread started") :: acts ++
   match e with
   | Stopped => [LogInfo (lit "Socket server thread stopped")]
   | Waiting => []
   end,
   e, r, w').

End Loop.

End Server.

(** ** Initialisation of the listener *)

Module Lifecycle.

(** The listener context ([socket_server_ctx_t]); the fields are those the
    source file reads and writes. *)
Record socket_server_ctx (M : Type) := mkCtx {
  socket_path : cstr;
  server_fd : Z;
  running : bool;
  thread : Z;
  track_manager : M
}.
Arguments mkCtx {M} _ _ _ _ _.
Arguments socket_path {M} _.
Arguments server_fd {M} _.
Arguments running {M} _.
Arguments thread {M} _.
Arguments track_manager {M} _.

(** The resources of the process that initialisation touches: descriptors
    that are open, heap blocks that are allocated, files that exist at a
    path with their mode, and the log. *)
Record os_state := mkOs {
  open_fds : list Z;
  heap : list nat;
  files : list (cstr * Z);
  os_log : list Server.action
}.

(** What the system answers to the calls [socket_server_init] makes. *)
Record init_answers := mkAnswers {
  calloc_ans : option nat;
  getuid_ans : Z;
  socket_ans : Z;
  bind_ans : Z;
  listen_ans : Z
}.

(** Remove the first occurrence of a descriptor or block. *)
Fixpoint remove_one {A} (eqb : A -> A -> bool) (x : A) (l : list A) : list A :=
  match l with
  | [] => []
  | y :: rest => if eqb x y then rest else y :: remove_one eqb x rest
  end.

Definition cstr_eqb (a b : cstr) : bool := strcmp a b =? 0.

Definition sys_alloc (p : nat) (os : os_state) : os_state :=
  mkOs (open_fds os) (p :: heap os) (files os) (os_log os).

Definition sys_free (p : nat) (os : os_state) : os_state :=
  mkOs (open_fds os) (remove_one Nat.eqb p (heap os)) (files os) (os_log os).

Definition sys_open (fd : Z) (os : os_state) : os_state :=
  mkOs (fd :: open_fds os) (heap os) (files os) (os_log os).

Definition sys_close (fd : Z) (os : os_state) : os_state :=
  mkOs (remove_one Z.eqb fd (open_fds os)) (heap os) (files os) (os_log os).

Definition sys_unlink (path : cstr) (os : os_state) : os_state :=
  mkOs (open_fds os) (heap os)
       (filter (fun f => negb (cstr_eqb (fst f) path)) (files os)) (os_log os).

(** A successful [bind] on a Unix socket creates the socket file. *)
Definition sys_bound (path : cstr) (os : os_state) : os_state :=
  mkOs (open_fds os) (heap os) ((path, 0) :: files os) (os_log os).

Definition sys_chmod (path : cstr) (mode : Z) (os : os_state) : os_state :=
  mkOs (open_fds os) (heap os)
       (map (fun f => if cstr_eqb (fst f) path then (fst f, mode) else f) (files os))
       (os_log os).

Definition sys_log (a : Server.action) (os : os_state) : os_state :=
  mkOs (open_fds os) (heap os) (files os) (os_log os ++ [a]).

(** [(int)getuid()]: the 32-bit unsigned id read as a signed [int]. *)
Definition int_of_uid (uid : Z) : Z :=
  (uid + 2 ^ 31) mod 2 ^ 32 - 2 ^ 31.

(** [get_socket_path buffer size]; [buffer] is [None] for a NULL pointer.
    The result is the content written to the buffer. *)
Definition get_socket_path (uid : Z) (buffer : option cstr) (size : nat) : option cstr :=
  match buffer with
  | None => None
  | Some content =>
      if Nat.eqb size 0 then None
      else
        let dir_path :=
          snprintf [] 256 (lit "/var/run/user/" ++ fmt_d (int_of_uid uid) ++ lit "/papa") in
        Some (snprintf content size (dir_path ++ lit "/papad.sock"))
  end.

Section Init.

Context {M : Type}.

(** [sizeof(ctx->socket_path)] comes from [socket_server.h] and
    [sizeof(addr.sun_path)] from the platform's [sys/un.h]. *)
Variable SOCKET_PATH_SIZE : nat.
Variable SUN_PATH_SIZE : nat.

(** [socket_server_init]: the context returned (with its address), or
    [None] for NULL, and the resources afterwards. *)
Definition socket_server_init (ans : init_answers) (tm : M) (os : os_state)
  : option (nat * socket_server_ctx M) * os_state :=
  match calloc_ans ans with
  | None =>
      (None, sys_log (Server.LogError (lit "Failed to allocate socket server context")) os)
  | Some p =>
      let os1 := sys_alloc p os in
      match get_socket_path (getuid_ans ans) (Some []) SOCKET_PATH_SIZE with
      | None =>
          (None, sys_free p (sys_log (Server.LogError (lit "Failed to get socket path")) os1))
      | Some path =>
          let os2 := sys_unlink path os1 in
          let fd := socket_ans ans in
          if fd <? 0 then
            (None, sys_free p (sys_log (Server.LogError (lit "Socket creation failed")) os2))
          else
            let os3 := sys_open fd os2 in
            let sun_path := cstring (strncpy path (SUN_PATH_SIZE - 1) ++ [NUL]) in
            if bind_ans ans <? 0 then
              (None,
               sys_free p (sys_close fd
                 (sys_log (Server.LogError (lit "Socket bind failed")) os3)))
            else
              let os4 := sys_bound sun_path os3 in
              if listen_ans ans <? 0 then
                (None,
                 sys_free p (sys_close fd
                   (sys_log (Server.LogError (lit "Socket listen failed")) os4)))
              else
                let os5 := sys_chmod path 438 os4 in
                (Some (p, mkCtx path fd false 0 tm),
                 sys_log (Server.LogInfo (lit "Socket server initialized at " ++ path)) os5)
      end
  end.

End Init.

(** ** Starting and stopping the listener *)


Section StartStop.

Context {M : Type}.

Variable SUN_PATH_SIZE : nat.



End StartStop.

End Lifecycle.

(** ** The parser as the specification words it

    "Splits on the first whitespace run; everything before is the keyword,
    everything after (including embedded whitespace, with no further
    splitting) is the argument."  This definition follows that sentence and
    is only compared with [split_command]; the model of the program does not
    use it. *)

Module SpecParser.

(** The C locale's [isspace]: space, and tab to carriage return. *)
Definition is_whitespace (c : ascii) : bool :=
  let n := nat_of_ascii c in
  Nat.eqb n 32 || (Nat.leb 9 n && Nat.leb n 13).

Fixpoint before_whitespace (line : cstr) : cstr :=
  match line with
  | [] => []
  | c :: rest => if is_whitespace c then [] else c :: before_whitespace rest
  end.

Fixpoint drop_whitespace_run (s : cstr) : cstr :=
  match s with
  | [] => []
  | c :: rest => if is_whitespace c then drop_whitespace_run rest else s
  end.

Fixpoint from_whitespace (line : cstr) : cstr :=
  match line with
  | [] => []
  | c :: rest => if is_whitespace c then line else from_whitespace rest
  end.

(** Keyword and argument of a line, split on its first whitespace run. *)
Definition split_on_first_whitespace_run (line : cstr) : cstr * cstr :=
  (before_whitespace line, drop_whitespace_run (from_whitespace line)).

End SpecParser.

(** ** A stub track manager, to run the model on concrete requests

    The state is the list of tracks that play.  Playing succeeds unless the
    track already plays, stopping succeeds if it plays, and stopping
    everything always succeeds. *)

Module Stub.

Fixpoint playing (id : cstr) (l : list cstr) : bool :=
  match l with
  | [] => false
  | x :: rest => (strcmp x id =? 0) || playing id rest
  end.

#[global] Instance stub_manager : TrackManager (list cstr) := {
  track_manager_play m id := if playing id m then (false, m) else (true, id :: m);
  track_manager_stop m id :=
    if playing id m
    then (true, filter (fun x => negb (strcmp x id =? 0)) m)
    else (false, m);
  track_manager_stop_all m := (true, [])
}.

Definition idle : world (list cstr) := mkWorld [] [].

End Stub.

(** ** Vocabulary of the statements *)

(** [has_prefix p s]: the string [s] begins with [p]. *)
Fixpoint has_prefix (p s : cstr) : bool :=
  match p, s with
  | [], _ => true
  | _ :: _, [] => false
  | x :: p', y :: s' => Ascii.eqb x y && has_prefix p' s'
  end.

(** The keywords of the command table. *)
Definition KEYWORDS : list cstr :=
  [lit "play"; lit "stop"; lit "stop-all"; lit "list"; lit "status"; lit "reload"].

(** The reply and result of a request have the protocol's form: result 0
    with ["OK: "] and a message, or result -1 with ["ERROR: "] and a
    message. *)
Definition well_formed_reply (rc : Z) (r : cstr) : Prop :=
  exists msg, msg <> [] /\
    ((rc = 0 /\ r = lit "OK: " ++ msg) \/ (rc = -1 /\ r = lit "ERROR: " ++ msg)).

(** The parser of the program does on [line] what the specification's
    sentence says: same keyword, and the text handed to the handler is what
    follows the first whitespace run. *)
Definition splits_on_first_whitespace_run (line : cstr) : Prop :=
  let '(cmd, arg) := split_command line in
  let '(keyword, argument) := SpecParser.split_on_first_whitespace_run line in
  cmd = Some keyword /\ arg_text arg = argument.

(** What [split_command] computes, on the content of the local buffer: the
    keyword starts after the leading spaces and runs to the next space; the
    argument is whatever follows that one space, if anything does. *)
Definition split_buffer (b : cstr) : option cstr * option cstr :=
  match skipn (strspn b [SPACE]) b with
  | [] => (None, None)
  | c :: t =>
      let n := strcspn (c :: t) [SPACE] in
      (Some (firstn n (c :: t)),
       match skipn (S n) (c :: t) with
       | [] => None
       | a :: rest => Some (a :: rest)
       end)
  end.

(** The connections a trace accepted, and the connections it closed, in
    order. *)
Fixpoint accepted (tr : list Server.action) : list Z :=
  match tr with
  | [] => []
  | Server.Accept fd :: rest => if fd <? 0 then accepted rest else fd :: accepted rest
  | _ :: rest => accepted rest
  end.

Fixpoint closed (tr : list Server.action) : list Z :=
  match tr with
  | [] => []
  | Server.Close fd :: rest => fd :: closed rest
  | _ :: rest => closed rest
  end.

(** The replies a trace wrote, in order. *)
Fixpoint written (tr : list Server.action) : list cstr :=
  match tr with
  | [] => []
  | Server.Write _ data :: rest => data :: written rest
  | _ :: rest => written rest
  end.

(** A trace that serves one connection at a time: a failed accept (with or
    without its log line), or a connection accepted, read, and closed, with
    a reply of the protocol's form written on that same connection in
    between when the read brought something. *)
Inductive sequential : list Server.action -> Prop :=
| seq_done : sequential []
| seq_accept_failed fd tr :
    fd < 0 -> sequential tr ->
    sequential (Server.Accept fd :: tr)
| seq_accept_failed_logged fd msg tr :
    fd < 0 -> sequential tr ->
    sequential (Server.Accept fd :: Server.LogError msg :: tr)
| seq_dropped fd count n tr :
    0 <= fd -> n <= 0 -> sequential tr ->
    sequential (Server.Accept fd :: Server.Read fd count n :: Server.Close fd :: tr)
| seq_served fd count n msg rc reply tr :
    0 <= fd -> 0 < n <= Z.of_nat count ->
    well_formed_reply rc reply ->
    (List.length reply < Server.RESPONSE_SIZE)%nat ->
    sequential tr ->
    sequential (Server.Accept fd :: Server.Read fd count n :: Server.LogDebug msg ::
                Server.Write fd reply :: Server.Close fd :: tr).

(** The whole path [get_socket_path] formats for a user id. *)
Definition socket_path_text (uid : Z) : cstr :=
  lit "/var/run/user/" ++ fmt_d (Lifecycle.int_of_uid uid) ++ lit "/papa" ++ lit "/papad.sock".

(** * Properties *)

(** ** C strings *)

Lemma cstring_idem (s : list ascii) : cstring (cstring s) = cstring s.
Proof.
  induction s as [|c s IH]; simpl; auto.
  destruct (Ascii.eqb c NUL) eqn:E; simpl; auto.
  rewrite E, IH. reflexivity.
Qed.

Lemma cstring_firstn (n : nat) (s : list ascii) :
  cstring (firstn n s) = firstn n (cstring s).
Proof.
  revert n. induction s as [|c s IH]; intros [|n]; simpl; auto.
  destruct (Ascii.eqb c NUL); simpl; auto. now rewrite IH.
Qed.

Lemma cstring_skipn_fixed (n : nat) (s : cstr) :
  cstring s = s -> cstring (skipn n s) = skipn n s.
Proof.
  revert n. induction s as [|c s IH]; intros [|n] Hs; simpl; auto.
  simpl in Hs. destruct (Ascii.eqb c NUL); [discriminate|].
  apply IH. congruence.
Qed.

Lemma cstring_nul_padding (k : nat) : cstring (repeat NUL k ++ [NUL]) = [].
Proof. destruct k; reflexivity. Qed.

Lemma cstring_app_fixed (a b : list ascii) :
  cstring a = a -> cstring (a ++ b) = a ++ cstring b.
Proof.
  induction a as [|c a IH]; simpl; auto.
  destruct (Ascii.eqb c NUL); [discriminate|].
  intros Ha. f_equal. apply IH. congruence.
Qed.

(** The local buffer of [process_command] holds the first [n] bytes of the
    command string. *)
Lemma cstring_strncpy (src : list ascii) (n : nat) :
  cstring (strncpy src n ++ [NUL]) = firstn n (cstring src).
Proof.
  unfold strncpy. rewrite <- app_assoc.
  rewrite cstring_app_fixed.
  - rewrite cstring_nul_padding. apply app_nil_r.
  - rewrite cstring_firstn, cstring_idem. reflexivity.
Qed.

Lemma cstring_fixed_head (c : ascii) (s : cstr) :
  cstring (c :: s) = c :: s -> Ascii.eqb c NUL = false /\ cstring s = s.
Proof.
  simpl. destruct (Ascii.eqb c NUL); [discriminate|].
  intros E. split; congruence.
Qed.

Lemma strspn_no_delim (s : cstr) : strspn s [] = O.
Proof. destruct s; reflexivity. Qed.

Lemma strcspn_no_delim (s : cstr) : strcspn s [] = List.length s.
Proof. induction s; simpl; auto. Qed.

Lemma skipn_strspn_head (s delim : cstr) (c : ascii) (t : cstr) :
  skipn (strspn s delim) s = c :: t -> is_delim c delim = false.
Proof.
  induction s as [|x s IH]; simpl; [discriminate|].
  destruct (is_delim x delim) eqn:E; simpl; auto.
  intros Heq. injection Heq as -> _. exact E.
Qed.

Lemma strcmp_zero (a b : cstr) : strcmp a b = 0 <-> a = b.
Proof.
  revert b. induction a as [|x a IH]; intros [|y b]; simpl;
    try (split; [lia | discriminate]); [tauto|].
  destruct (N.ltb_spec (N_of_ascii x) (N_of_ascii y));
    [split; [lia | intros [= -> _]; lia]|].
  destruct (N.ltb_spec (N_of_ascii y) (N_of_ascii x));
    [split; [lia | intros [= -> _]; lia]|].
  assert (x = y) as ->.
  { rewrite <- (ascii_N_embedding x), <- (ascii_N_embedding y).
    f_equal. lia. }
  rewrite IH. split; [now intros -> | now intros [= ->]].
Qed.

Lemma strcmp_eqb_refl (a : cstr) : (strcmp a a =? 0) = true.
Proof. apply Z.eqb_eq, strcmp_zero. reflexivity. Qed.

Lemma strcmp_eqb_neq (a b : cstr) : a <> b -> (strcmp a b =? 0) = false.
Proof. intros N. apply Z.eqb_neq. now rewrite strcmp_zero. Qed.

Lemma snprintf_fits (response out : cstr) (resp_size : nat) :
  (List.length out < resp_size)%nat -> snprintf response resp_size out = out.
Proof.
  destruct resp_size as [|room]; [lia|]. intros Hlen. simpl.
  apply firstn_all2. lia.
Qed.

(** ** The parser *)

(** The two [strtok] calls see the first 255 bytes of the command string
    and nothing else. *)
Lemma split_command_buffer (cmd_str : list ascii) :
  split_command cmd_str = split_buffer (firstn 255 (cstring cmd_str)).
Proof.
  unfold split_command, split_buffer, strtok.
  change (CMD_BUF_SIZE - 1)%nat with 255%nat.
  change (lit " ") with [SPACE]. change (lit "") with (@nil ascii).
  rewrite cstring_strncpy.
  assert (Hb : cstring (firstn 255 (cstring cmd_str)) = firstn 255 (cstring cmd_str))
    by (rewrite cstring_firstn, cstring_idem; reflexivity).
  set (b := firstn 255 (cstring cmd_str)) in *.
  assert (Hs : cstring (skipn (strspn b [SPACE]) b) = skipn (strspn b [SPACE]) b)
    by (apply cstring_skipn_fixed, Hb).
  destruct (skipn (strspn b [SPACE]) b) as [|c t] eqn:Es1.
  - reflexivity.
  - set (n := strcspn (c :: t) [SPACE]).
    rewrite (cstring_skipn_fixed (S n) (c :: t) Hs).
    rewrite strspn_no_delim. cbn [skipn].
    destruct (skipn n t) as [|a rest]; [reflexivity|].
    rewrite strcspn_no_delim, firstn_all. reflexivity.
Qed.

(** A keyword is never empty, and keyword, separator and argument all come
    out of the buffer. *)
Lemma split_buffer_keyword (b k : cstr) (arg : option cstr) :
  split_buffer b = (Some k, arg) ->
  k <> [] /\ (List.length k <= List.length b)%nat /\
  (forall a, arg = Some a ->
     a <> [] /\ (List.length k + 1 + List.length a <= List.length b)%nat /\
     (cstring b = b -> cstring a = a)).
Proof.
  unfold split_buffer.
  destruct (skipn (strspn b [SPACE]) b) as [|c t] eqn:Es1; [discriminate|].
  cbv zeta.
  pose proof (skipn_strspn_head _ _ _ _ Es1) as Hc.
  assert (Hlen : (List.length (c :: t) <= List.length b)%nat)
    by (rewrite <- Es1, length_skipn; lia).
  set (n := strcspn (c :: t) [SPACE]).
  assert (Hn : n = S (strcspn t [SPACE]))
    by (unfold n; cbn [strcspn]; now rewrite Hc).
  intros Heq. injection Heq as Hk Ha. subst k arg. split; [|split].
  - rewrite Hn. discriminate.
  - rewrite length_firstn. lia.
  - intros a0 Ha0.
    destruct (skipn n t) as [|a rest] eqn:Ea; [discriminate Ha0|].
    injection Ha0 as <-.
    change (skipn n t) with (skipn (S n) (c :: t)) in Ea.
    assert (L : List.length (skipn (S n) (c :: t)) = S (List.length rest))
      by (rewrite Ea; reflexivity).
    rewrite length_skipn in L.
    split; [discriminate|]. split.
    + rewrite length_firstn. simpl List.length in *. lia.
    + intros Hb. rewrite <- Ea.
      apply cstring_skipn_fixed. rewrite <- Es1.
      apply cstring_skipn_fixed, Hb.
Qed.

(** The same facts for the command string: the keyword and the argument
    share the 255 bytes of the local buffer. *)
Lemma split_command_bounds (cmd_str : list ascii) (k : cstr) (arg : option cstr) :
  split_command cmd_str = (Some k, arg) ->
  k <> [] /\ (List.length k <= 255)%nat /\
  (forall a, arg = Some a ->
     missing (Some a) = false /\ arg_text (Some a) = a /\
     (List.length k + 1 + List.length a <= 255)%nat).
Proof.
  rewrite split_command_buffer. intros Hs.
  destruct (split_buffer_keyword _ _ _ Hs) as (Hk & Hlen & Harg).
  pose proof (firstn_le_length 255 (cstring cmd_str)) as Hb.
  split; [exact Hk|]. split; [lia|].
  intros a Ha. destruct (Harg a Ha) as (Hne & Hla & Hfix).
  assert (Hca : cstring a = a)
    by (apply Hfix; rewrite cstring_firstn, cstring_idem; reflexivity).
  destruct a as [|x a]; [congruence|].
  destruct (cstring_fixed_head _ _ Hca) as [Hx _].
  split; [exact Hx|]. split; [exact Hca|]. lia.
Qed.

Lemma strspn_spaces (sp rest : cstr) :
  forallb (Ascii.eqb SPACE) sp = true ->
  strspn (sp ++ rest) [SPACE] = (List.length sp + strspn rest [SPACE])%nat.
Proof.
  induction sp as [|c sp IH]; cbn [forallb app strspn is_delim List.length]; auto.
  intros Hc. apply andb_prop in Hc as [Hc Hsp].
  rewrite Ascii.eqb_sym, Hc, (IH Hsp). reflexivity.
Qed.

Lemma strcspn_word (k rest : cstr) :
  existsb (Ascii.eqb SPACE) k = false ->
  strcspn (k ++ rest) [SPACE] = (List.length k + strcspn rest [SPACE])%nat.
Proof.
  induction k as [|c k IH]; cbn [existsb app strcspn is_delim List.length]; auto.
  intros Hc. apply orb_false_elim in Hc as [Hc Hk].
  rewrite Ascii.eqb_sym, Hc, (IH Hk). reflexivity.
Qed.

(** What the buffer [sp ++ k ++ tail] splits into, for leading spaces [sp]
    and a space-free word [k] that ends at a space or at the end. *)
Lemma split_buffer_word (sp k tail : cstr) :
  forallb (Ascii.eqb SPACE) sp = true ->
  k <> [] ->
  existsb (Ascii.eqb SPACE) k = false ->
  strcspn tail [SPACE] = O ->
  split_buffer (sp ++ k ++ tail) =
    (Some k, match tail with
             | [] | [_] => None
             | _ :: a :: rest => Some (a :: rest)
             end).
Proof.
  intros Hsp Hne Hk Htail. unfold split_buffer.
  destruct k as [|c k]; [congruence|].
  assert (Hspn : strspn (sp ++ (c :: k) ++ tail) [SPACE] = List.length sp).
  { rewrite strspn_spaces by exact Hsp.
    cbn [existsb] in Hk. apply orb_false_elim in Hk as [Hc _].
    cbn [app strspn is_delim]. rewrite Ascii.eqb_sym, Hc. lia. }
  assert (H1 : skipn (List.length sp) (sp ++ (c :: k) ++ tail) = c :: (k ++ tail))
    by (rewrite skipn_app, skipn_all, Nat.sub_diag; reflexivity).
  assert (H2 : strcspn (c :: (k ++ tail)) [SPACE] = List.length (c :: k))
    by (change (c :: k ++ tail) with ((c :: k) ++ tail);
        rewrite (strcspn_word (c :: k) tail Hk), Htail; lia).
  assert (H3 : firstn (List.length (c :: k)) (c :: (k ++ tail)) = c :: k).
  { change (c :: k ++ tail) with ((c :: k) ++ tail).
    rewrite firstn_app, firstn_all, Nat.sub_diag, firstn_0. apply app_nil_r. }
  assert (H4 : skipn (S (List.length (c :: k))) (c :: (k ++ tail)) = skipn 1 tail).
  { change (c :: k ++ tail) with ((c :: k) ++ tail).
    rewrite skipn_app, skipn_all2 by lia.
    replace (S (List.length (c :: k)) - List.length (c :: k))%nat with 1%nat by lia.
    reflexivity. }
  rewrite Hspn, H1. cbv zeta. rewrite H2, H3, H4.
  destruct tail as [|x [|a rest]]; reflexivity.
Qed.

(** ** Dispatch *)

Section Dispatch.

Context {M : Type} `{TrackManager M}.

(** The lookup is by exact name: each keyword finds its handler, anything
    else finds none. *)
Lemma find_handler_cases (k : cstr) :
  (k = lit "play" /\ find_handler COMMANDS k = Some handle_play) \/
  (k = lit "stop" /\ find_handler COMMANDS k = Some handle_stop) \/
  (k = lit "stop-all" /\ find_handler COMMANDS k = Some handle_stop_all) \/
  (k = lit "list" /\ find_handler COMMANDS k = Some handle_list) \/
  (k = lit "status" /\ find_handler COMMANDS k = Some handle_status) \/
  (k = lit "reload" /\ find_handler COMMANDS k = Some handle_reload) \/
  (~ In k KEYWORDS /\ find_handler COMMANDS k = None).
Proof.
  destruct (list_eq_dec ascii_dec (lit "play") k) as [<-|N1]; [now left|right].
  destruct (list_eq_dec ascii_dec (lit "stop") k) as [<-|N2]; [now left|right].
  destruct (list_eq_dec ascii_dec (lit "stop-all") k) as [<-|N3]; [now left|right].
  destruct (list_eq_dec ascii_dec (lit "list") k) as [<-|N4]; [now left|right].
  destruct (list_eq_dec ascii_dec (lit "status") k) as [<-|N5]; [now left|right].
  destruct (list_eq_dec ascii_dec (lit "reload") k) as [<-|N6]; [now left|right].
  split.
  - unfold KEYWORDS. cbn [In]. intuition congruence.
  - unfold COMMANDS. cbn [find_handler].
    now rewrite !strcmp_eqb_neq by assumption.
Qed.

Lemma find_handler_unknown (k : cstr) :
  ~ In k KEYWORDS -> find_handler COMMANDS k = None.
Proof.
  intros Hk.
  destruct (find_handler_cases k)
    as [[-> _]|[[-> _]|[[-> _]|[[-> _]|[[-> _]|[[-> _]|[_ E]]]]]]];
    try exact E; exfalso; apply Hk; unfold KEYWORDS; cbn [In]; tauto.
Qed.

(** With room for 280 bytes and the terminator, [snprintf] stores every
    reply whole. *)
Ltac reply_fits :=
  rewrite snprintf_fits
    by (rewrite ?length_app; cbn [lit list_ascii_of_string List.length] in *; lia).

Ltac reply_form msg :=
  split;
  [ exists msg; split; [discriminate | (left + right); split; reflexivity]
  | rewrite ?length_app; cbn [lit list_ascii_of_string List.length] in *; lia ].

(** Every request gets a reply of the protocol's form, result and tag in
    agreement, stored whole in the response buffer. *)
Lemma process_command_outcome (cmd_str : list ascii) (response : cstr)
    (resp_size : nat) (w : world M) :
  (280 < resp_size)%nat ->
  well_formed_reply (fst (fst (process_command cmd_str response resp_size w)))
                    (snd (fst (process_command cmd_str response resp_size w))) /\
  (List.length (snd (fst (process_command cmd_str response resp_size w))) < resp_size)%nat.
Proof.
  intros Hsize. unfold process_command.
  destruct (split_command cmd_str) as [[k|] arg] eqn:Es.
  2:{ unfold ret. cbn [fst snd]. reply_fits. reply_form (lit "Empty command"). }
  destruct (split_command_bounds _ _ _ Es) as (Hk & Hlen & Harg).
  destruct (find_handler_cases k)
    as [[-> E]|[[-> E]|[[-> E]|[[-> E]|[[-> E]|[[-> E]|[_ E]]]]]]]; rewrite E; clear E.
  - unfold handle_play.
    destruct arg as [a|]; [|cbn [missing]].
    + destruct (Harg a eq_refl) as (-> & -> & Hla).
      unfold bind, call_play, ret.
      destruct (track_manager_play (mgr w) a) as [[|] m']; cbn [fst snd]; reply_fits.
      * reply_form (lit "Playing track " ++ a).
      * reply_form (lit "Failed to play track " ++ a).
    + unfold ret. cbn [fst snd]. reply_fits. reply_form (lit "Missing track ID").
  - unfold handle_stop.
    destruct arg as [a|]; [|cbn [missing]].
    + destruct (Harg a eq_refl) as (-> & -> & Hla).
      unfold bind, call_stop, ret.
      destruct (track_manager_stop (mgr w) a) as [[|] m']; cbn [fst snd]; reply_fits.
      * reply_form (lit "Stopped track " ++ a).
      * reply_form (lit "Failed to stop track " ++ a).
    + unfold ret. cbn [fst snd]. reply_fits. reply_form (lit "Missing track ID").
  - unfold handle_stop_all, bind, call_stop_all, ret.
    destruct (track_manager_stop_all (mgr w)) as [[|] m']; cbn [fst snd]; reply_fits.
    + reply_form (lit "Stopped all tracks").
    + reply_form (lit "Failed to stop all tracks").
  - unfold handle_list, ret. cbn [fst snd]. reply_fits.
    reply_form (lit "Track listing not yet implemented").
  - unfold handle_status, ret. cbn [fst snd]. reply_fits.
    reply_form (lit "Status not yet implemented").
  - unfold handle_reload, ret. cbn [fst snd]. reply_fits.
    reply_form (lit "Reload signal sent").
  - unfold ret. cbn [fst snd]. reply_fits.
    reply_form (lit "Unknown command '" ++ k ++ lit "'").
Qed.

End Dispatch.

(** ** Missing track identifier *)

Lemma missing_empty (p : list ascii) : cstring p = [] -> missing (Some p) = true.
Proof.
  destruct p as [|c p]; [reflexivity|].
  cbn [cstring missing]. destruct (Ascii.eqb c NUL); [reflexivity|discriminate].
Qed.

(** C1. Whenever the play or the stop handler is invoked with an absent
    argument (a NULL pointer) or with the empty string, the reply is exactly
    [ERROR: Missing track ID], the result is the failure value -1, and the
    track manager is not called: the world comes back as it was, its call
    log included.  The response buffer has room for the 23 bytes of the
    reply (the server passes 1024). *)
Theorem handle_play_stop_missing_track_id
    {M : Type} {TM : TrackManager M}
    (track_id : option (list ascii)) (response : cstr) (resp_size : nat) (w : world M) :
  (track_id = None \/ exists p, track_id = Some p /\ cstring p = []) ->
  (23 < resp_size)%nat ->
  handle_play track_id response resp_size w = ((-1, lit "ERROR: Missing track ID"), w) /\
  handle_stop track_id response resp_size w = ((-1, lit "ERROR: Missing track ID"), w).
Proof.
  intros Harg Hsize.
  assert (Hm : missing track_id = true).
  { destruct Harg as [->|(p & -> & Hp)]; [reflexivity|]. now apply missing_empty. }
  unfold handle_play, handle_stop. rewrite Hm. unfold ret.
  rewrite snprintf_fits by (cbn [lit list_ascii_of_string List.length]; lia).
  split; reflexivity.
Qed.

Lemma handle_play_stop_missing_track_id_witness :
  handle_play (Some [NUL]) [] Server.RESPONSE_SIZE Stub.idle
    = ((-1, lit "ERROR: Missing track ID"), Stub.idle) /\
  handle_stop (Some [NUL]) [] Server.RESPONSE_SIZE Stub.idle
    = ((-1, lit "ERROR: Missing track ID"), Stub.idle).
Proof.
  apply (handle_play_stop_missing_track_id (Some [NUL]) [] Server.RESPONSE_SIZE Stub.idle).
  - right. exists [NUL]. split; reflexivity.
  - apply Nat.ltb_lt. reflexivity.
Defined.

(** The request [play ] with its trailing space carries no argument. *)
Example play_trailing_space :
  process_command (lit "play ") [] Server.RESPONSE_SIZE Stub.idle
    = ((-1, lit "ERROR: Missing track ID"), Stub.idle).
Proof. vm_compute. reflexivity. Qed.

(** ** Unknown commands *)

(** C2. For every input line whose keyword [k] (the first token the parser
    finds in the line) is none of play, stop, stop-all, list, status and
    reload, [process_command] returns the failure value -1 and the reply is
    exactly [ERROR: Unknown command '<k>'], with [k] reproduced byte for
    byte; the track manager is left alone.  The response buffer has room for
    280 bytes (the server passes 1024). *)
Theorem process_command_unknown_keyword
    {M : Type} {TM : TrackManager M}
    (cmd_str : list ascii) (k : cstr) (arg : option cstr)
    (response : cstr) (resp_size : nat) (w : world M) :
  split_command cmd_str = (Some k, arg) ->
  ~ In k KEYWORDS ->
  (280 < resp_size)%nat ->
  process_command cmd_str response resp_size w
    = ((-1, lit "ERROR: Unknown command '" ++ k ++ lit "'"), w).
Proof.
  intros Hsplit Hk Hsize.
  destruct (split_command_bounds _ _ _ Hsplit) as (_ & Hlen & _).
  unfold process_command. rewrite Hsplit, (find_handler_unknown k Hk).
  unfold ret. rewrite snprintf_fits; [reflexivity|].
  rewrite !length_app. cbn [lit list_ascii_of_string List.length]. lia.
Qed.

Lemma process_command_unknown_keyword_witness :
  process_command (lit "pause track42") [] Server.RESPONSE_SIZE Stub.idle
    = ((-1, lit "ERROR: Unknown command 'pause'"), Stub.idle).
Proof.
  apply (process_command_unknown_keyword
           (lit "pause track42") (lit "pause") (Some (lit "track42")) [] Server.RESPONSE_SIZE Stub.idle).
  - reflexivity.
  - unfold KEYWORDS. cbn [In]. intuition discriminate.
  - apply Nat.ltb_lt. reflexivity.
Defined.

(** ** Playing a track *)

(** A line made of [play], one space and a track identifier that fits the
    buffer parses to the keyword [play] with that identifier as argument. *)
Lemma split_command_play_line (id : cstr) :
  id <> [] -> cstring id = id -> (List.length id <= 250)%nat ->
  split_command (lit "play " ++ id) = (Some (lit "play"), Some id).
Proof.
  intros Hne Hfix Hlen.
  rewrite split_command_buffer.
  assert (Hc : cstring (lit "play " ++ id) = lit "play " ++ id)
    by (rewrite cstring_app_fixed by reflexivity; now rewrite Hfix).
  rewrite Hc, firstn_all2
    by (rewrite length_app; cbn [lit list_ascii_of_string List.length]; lia).
  change (lit "play " ++ id) with ([] ++ lit "play" ++ SPACE :: id).
  rewrite split_buffer_word; try reflexivity; try discriminate.
  destruct id; [congruence|reflexivity].
Qed.

(** C3. For every input line that parses to the keyword [play] with a track
    identifier [id] (which is then never empty): if [track_manager_play]
    succeeds the reply is exactly [OK: Playing track <id>] with the success
    value 0, and if it refuses the reply is exactly
    [ERROR: Failed to play track <id>] with the failure value -1.  The
    response buffer has room for 280 bytes (the server passes 1024). *)
Theorem process_command_play
    {M : Type} {TM : TrackManager M}
    (cmd_str : list ascii) (id : cstr)
    (response : cstr) (resp_size : nat) (w : world M) :
  split_command cmd_str = (Some (lit "play"), Some id) ->
  (280 < resp_size)%nat ->
  id <> [] /\
  (fst (track_manager_play (mgr w) id) = true ->
     fst (process_command cmd_str response resp_size w)
       = (0, lit "OK: Playing track " ++ id)) /\
  (fst (track_manager_play (mgr w) id) = false ->
     fst (process_command cmd_str response resp_size w)
       = (-1, lit "ERROR: Failed to play track " ++ id)).
Proof.
  intros Hsplit Hsize.
  destruct (split_command_bounds _ _ _ Hsplit) as (_ & _ & Harg).
  destruct (Harg id eq_refl) as (Hmiss & Htext & Hlen).
  cbn [lit list_ascii_of_string List.length] in Hlen.
  split; [intros ->; discriminate|].
  assert (Hf : find_handler (M:=M) COMMANDS (lit "play") = Some handle_play)
    by reflexivity.
  unfold process_command. rewrite Hsplit, Hf.
  unfold handle_play. rewrite Hmiss, Htext.
  unfold bind, call_play, ret.
  destruct (track_manager_play (mgr w) id) as [ok m']. cbn [fst].
  split; intros ->; cbn [fst];
    (rewrite snprintf_fits; [reflexivity|]);
    rewrite length_app; cbn [lit list_ascii_of_string List.length]; lia.
Qed.

Lemma process_command_play_witness :
  fst (process_command (lit "play track42") [] Server.RESPONSE_SIZE Stub.idle)
    = (0, lit "OK: Playing track track42").
Proof.
  refine (proj1 (proj2 (process_command_play
           (lit "play track42") (lit "track42") [] Server.RESPONSE_SIZE Stub.idle _ _)) _).
  - reflexivity.
  - apply Nat.ltb_lt. reflexivity.
  - reflexivity.
Defined.

(** ** Where the line is split *)

(** C4 fails as worded.  The parser does not split on the first whitespace
    run: of the two spaces in [play  x] it consumes one, and the handler
    receives [ x] with its leading space, where the specification's sentence
    gives [x]. *)
Lemma split_command_keeps_second_space :
  ~ splits_on_first_whitespace_run (lit "play  x").
Proof.
  unfold splits_on_first_whitespace_run.
  change (split_command (lit "play  x")) with (Some (lit "play"), Some (lit " x")).
  change (SpecParser.split_on_first_whitespace_run (lit "play  x"))
    with (lit "play", lit "x").
  intros [_ Harg]. discriminate Harg.
Qed.

(** C4, as the program has it.  The parser works on the first 255 bytes of
    the line.  It skips leading spaces; the keyword is the word that
    follows, up to the next space (byte 32) or the end.  Exactly that one
    space is consumed: everything after it, further spaces included and with
    no further splitting, is the argument handed to the handler; when
    nothing follows, the argument is absent. *)
Theorem split_command_on_first_space
    (cmd_str : list ascii) (sp k rest : cstr) :
  forallb (Ascii.eqb SPACE) sp = true ->
  k <> [] ->
  existsb (Ascii.eqb SPACE) k = false ->
  (firstn 255 (cstring cmd_str) = sp ++ k ->
     split_command cmd_str = (Some k, None)) /\
  (firstn 255 (cstring cmd_str) = sp ++ k ++ SPACE :: rest ->
     split_command cmd_str = (Some k, match rest with [] => None | _ :: _ => Some rest end)).
Proof.
  intros Hsp Hne Hk. rewrite split_command_buffer. split; intros ->.
  - rewrite <- (app_nil_r k) at 1.
    now rewrite split_buffer_word.
  - rewrite split_buffer_word by (assumption || reflexivity).
    destruct rest; reflexivity.
Qed.

Lemma split_command_on_first_space_witness :
  split_command (lit " play  x y") = (Some (lit "play"), Some (lit " x y")).
Proof.
  refine (proj2 (split_command_on_first_space
            (lit " play  x y") (lit " ") (lit "play") (lit " x y") _ _ _) _).
  - reflexivity.
  - discriminate.
  - reflexivity.
  - reflexivity.
Defined.

(** ** Long lines *)

(** C5. [process_command] on any command string does exactly what it does
    on the first 255 bytes of that string (one less than the size of its
    local buffer): what lies beyond is dropped without any error of its own,
    and the request is processed as usual. *)
Theorem process_command_truncates
    {M : Type} {TM : TrackManager M}
    (cmd_str : list ascii) (response : cstr) (resp_size : nat) (w : world M) :
  process_command cmd_str response resp_size w
    = process_command (firstn (CMD_BUF_SIZE - 1) cmd_str) response resp_size w.
Proof.
  unfold process_command.
  replace (split_command (firstn (CMD_BUF_SIZE - 1) cmd_str))
    with (split_command cmd_str); [reflexivity|].
  rewrite !split_command_buffer. change (CMD_BUF_SIZE - 1)%nat with 255%nat.
  rewrite cstring_firstn, firstn_firstn, Nat.min_id. reflexivity.
Qed.

(** A line of 300 bytes without a space: the keyword is its first 255. *)
Example long_line_is_cut :
  split_command (repeat "a"%char 300) = (Some (repeat "a"%char 255), None).
Proof. vm_compute. reflexivity. Qed.

(** ** Form of the reply *)

(** C6. For every input line and whatever the track manager answers, the
    response [process_command] leaves in the buffer is the tag [OK] or
    [ERROR], then [": "] and a message that is not empty, and its length is
    below the size of the response buffer.  The buffer has room for 280
    bytes (the server passes 1024). *)
Theorem process_command_reply_form
    {M : Type} {TM : TrackManager M}
    (cmd_str : list ascii) (response : cstr) (resp_size : nat) (w : world M) :
  (280 < resp_size)%nat ->
  let reply := snd (fst (process_command cmd_str response resp_size w)) in
  (exists msg, msg <> [] /\
     (reply = lit "OK: " ++ msg \/ reply = lit "ERROR: " ++ msg)) /\
  (List.length reply < resp_size)%nat.
Proof.
  intros Hsize reply.
  destruct (process_command_outcome cmd_str response resp_size w Hsize)
    as [(msg & Hmsg & Hform) Hlen].
  split; [|exact Hlen].
  exists msg. split; [exact Hmsg|].
  destruct Hform as [[_ E]|[_ E]]; [left|right]; exact E.
Qed.

Lemma process_command_reply_form_witness :
  let reply :=
    snd (fst (process_command (lit "stop drums") [] Server.RESPONSE_SIZE Stub.idle)) in
  (exists msg, msg <> [] /\
     (reply = lit "OK: " ++ msg \/ reply = lit "ERROR: " ++ msg)) /\
  (List.length reply < Server.RESPONSE_SIZE)%nat.
Proof.
  apply (process_command_reply_form (lit "stop drums") [] Server.RESPONSE_SIZE Stub.idle).
  apply Nat.ltb_lt. reflexivity.
Defined.

(** C10. For every input line and whatever the track manager answers, the
    integer result of [process_command] and the response agree: the result
    is 0 exactly when the response begins with [OK], and it is negative
    exactly when the response begins with [ERROR].  The buffer has room for
    280 bytes (the server passes 1024). *)
Theorem process_command_result_matches_tag
    {M : Type} {TM : TrackManager M}
    (cmd_str : list ascii) (response : cstr) (resp_size : nat) (w : world M) :
  (280 < resp_size)%nat ->
  let rc := fst (fst (process_command cmd_str response resp_size w)) in
  let reply := snd (fst (process_command cmd_str response resp_size w)) in
  (rc = 0 <-> has_prefix (lit "OK") reply = true) /\
  (rc < 0 <-> has_prefix (lit "ERROR") reply = true).
Proof.
  intros Hsize rc reply.
  destruct (process_command_outcome cmd_str response resp_size w Hsize)
    as [(msg & _ & Hform) _].
  fold rc reply in Hform.
  destruct Hform as [[Hrc Hreply]|[Hrc Hreply]]; rewrite Hrc, Hreply.
  - split; split; intros E; try reflexivity; try lia. discriminate E.
  - split; split; intros E; try reflexivity; try lia. discriminate E.
Qed.

Lemma process_command_result_matches_tag_witness :
  let rc :=
    fst (fst (process_command (lit "stop drums") [] Server.RESPONSE_SIZE Stub.idle)) in
  let reply :=
    snd (fst (process_command (lit "stop drums") [] Server.RESPONSE_SIZE Stub.idle)) in
  (rc = 0 <-> has_prefix (lit "OK") reply = true) /\
  (rc < 0 <-> has_prefix (lit "ERROR") reply = true).
Proof.
  apply (process_command_result_matches_tag
           (lit "stop drums") [] Server.RESPONSE_SIZE Stub.idle).
  apply Nat.ltb_lt. reflexivity.
Defined.

(** ** Stopping everything, twice *)

(** C9. With a track manager whose [stop_all] reports success in every
    state, sending [stop-all] twice in a row is answered
    [OK: Stopped all tracks] both times, with the success value 0, from any
    state of the track manager.  The response buffer has room for the 22
    bytes of the reply (the server passes 1024). *)
Theorem stop_all_twice
    {M : Type} {TM : TrackManager M}
    (response : cstr) (resp_size : nat) (w : world M) :
  (forall m, fst (track_manager_stop_all m) = true) ->
  (22 < resp_size)%nat ->
  let first := process_command (lit "stop-all") response resp_size w in
  let second := process_command (lit "stop-all") (snd (fst first)) resp_size (snd first) in
  fst first = (0, lit "OK: Stopped all tracks") /\
  fst second = (0, lit "OK: Stopped all tracks").
Proof.
  intros Hok Hsize.
  assert (Hone : forall r (v : world M),
            fst (process_command (lit "stop-all") r resp_size v)
              = (0, lit "OK: Stopped all tracks")).
  { intros r v.
    assert (Hs : split_command (lit "stop-all") = (Some (lit "stop-all"), None))
      by reflexivity.
    assert (Hf : find_handler (M:=M) COMMANDS (lit "stop-all") = Some handle_stop_all)
      by reflexivity.
    unfold process_command. rewrite Hs, Hf.
    unfold handle_stop_all, bind, call_stop_all, ret.
    pose proof (Hok (mgr v)) as Hv.
    destruct (track_manager_stop_all (mgr v)) as [ok m']. cbn [fst] in Hv. subst ok.
    cbn [fst]. rewrite snprintf_fits; [reflexivity|].
    cbn [lit list_ascii_of_string List.length]. lia. }
  intros first second. split; apply Hone.
Qed.

Lemma stop_all_twice_witness :
  let first :=
    process_command (lit "stop-all") [] Server.RESPONSE_SIZE
      (mkWorld [lit "drums"; lit "rain"] []) in
  let second :=
    process_command (lit "stop-all") (snd (fst first)) Server.RESPONSE_SIZE (snd first) in
  fst first = (0, lit "OK: Stopped all tracks") /\
  fst second = (0, lit "OK: Stopped all tracks").
Proof.
  apply (stop_all_twice [] Server.RESPONSE_SIZE (mkWorld [lit "drums"; lit "rain"] [])).
  - intros m. reflexivity.
  - apply Nat.ltb_lt. reflexivity.
Defined.

(** ** A connection with nothing to read *)

(** C8. In the accept loop, when [read] on an accepted connection returns
    zero or a negative count, the thread does three things for that
    connection and no more: the accept, the read, and the close of the
    connection socket.  No command is processed (response buffer and track
    manager stay as they were) and nothing is written back.  The loop then
    goes on with the following turns from that same state, and if the
    listener still runs at the next loop test, its next action is an
    accept. *)
Theorem read_nothing_closes_connection
    {M : Type} {TM : TrackManager M}
    (t : Server.turn) (rest : list Server.turn) (response : cstr) (w : world M) :
  Server.running_at_test t = true ->
  0 <= Server.accept_ret t ->
  fst (Server.sys_read (Server.read_ans t) (Server.BUFFER_SIZE - 1)) <= 0 ->
  let fd := Server.accept_ret t in
  let n := fst (Server.sys_read (Server.read_ans t) (Server.BUFFER_SIZE - 1)) in
  let '(acts, e, r, w') := Server.server_loop rest response w in
  Server.server_loop (t :: rest) response w
    = ([Server.Accept fd; Server.Read fd (Server.BUFFER_SIZE - 1) n; Server.Close fd] ++ acts,
       e, r, w') /\
  (forall t' rest', rest = t' :: rest' -> Server.running_at_test t' = true ->
     exists acts', acts = Server.Accept (Server.accept_ret t') :: acts').
Proof.
  intros Hrun Hfd Hread fd n.
  destruct (Server.server_loop rest response w) as [[[acts e] r] w'] eqn:Erest.
  split.
  - cbn [Server.server_loop]. rewrite Hrun. cbn [negb].
    fold fd. replace (fd <? 0) with false by (symmetry; apply Z.ltb_ge; exact Hfd).
    destruct (Server.sys_read (Server.read_ans t) (Server.BUFFER_SIZE - 1))
      as [bytes_read stored] eqn:Eread.
    cbn [fst] in Hread, n.
    replace (bytes_read >? 0) with false by (symmetry; rewrite Z.gtb_ltb; apply Z.ltb_ge; lia).
    rewrite Erest. reflexivity.
  - intros t' rest' -> Hrun'. revert Erest.
    cbn [Server.server_loop]. rewrite Hrun'. cbn [negb].
    destruct (Server.accept_ret t' <? 0).
    + destruct (Server.server_loop rest' response w) as [[[a1 e1] r1] w1].
      intros [= <- _ _ _]. eexists. reflexivity.
    + destruct (Server.sys_read (Server.read_ans t') (Server.BUFFER_SIZE - 1))
        as [b s].
      destruct (b >? 0).
      * destruct (process_command (s ++ [NUL]) response Server.RESPONSE_SIZE w)
          as [[rc r1] w1].
        destruct (Server.server_loop rest' r1 w1) as [[[a2 e2] r2] w2].
        intros [= <- _ _ _]. eexists. reflexivity.
      * destruct (Server.server_loop rest' response w) as [[[a2 e2] r2] w2].
        intros [= <- _ _ _]. eexists. reflexivity.
Qed.

Lemma read_nothing_closes_connection_witness :
  Server.server_loop
    [Server.mkTurn true 5 true (Server.ReadBytes []);
     Server.mkTurn true 6 true (Server.ReadBytes (lit "list"))]
    [] Stub.idle
  = ([Server.Accept 5; Server.Read 5 1023 0; Server.Close 5;
      Server.Accept 6; Server.Read 6 1023 4;
      Server.LogDebug (lit "Received command: list");
      Server.Write 6 (lit "OK: Track listing not yet implemented");
      Server.Close 6],
     Server.Waiting, lit "OK: Track listing not yet implemented", Stub.idle).
Proof.
  refine (proj1 (read_nothing_closes_connection
            (Server.mkTurn true 5 true (Server.ReadBytes []))
            [Server.mkTurn true 6 true (Server.ReadBytes (lit "list"))]
            [] Stub.idle _ _ _)).
  - reflexivity.
  - apply Z.leb_le. reflexivity.
  - apply Z.leb_le. reflexivity.
Defined.

(** ** Failed initialisation *)

(** C7. If [socket], [bind] or [listen] fails during initialisation,
    [socket_server_init] returns NULL and leaves nothing behind that could
    serve: the descriptors open afterwards are those open before (a socket
    it opened is closed again), and the heap holds the blocks it held before
    (the context it allocated is freed). *)
Theorem socket_server_init_failure
    {M : Type} (SOCKET_PATH_SIZE SUN_PATH_SIZE : nat)
    (ans : Lifecycle.init_answers) (tm : M) (os : Lifecycle.os_state) :
  Lifecycle.socket_ans ans < 0 \/ Lifecycle.bind_ans ans < 0 \/ Lifecycle.listen_ans ans < 0 ->
  let result := Lifecycle.socket_server_init SOCKET_PATH_SIZE SUN_PATH_SIZE ans tm os in
  fst result = None /\
  Lifecycle.open_fds (snd result) = Lifecycle.open_fds os /\
  Lifecycle.heap (snd result) = Lifecycle.heap os.
Proof.
  intros Hfail result. subst result. unfold Lifecycle.socket_server_init.
  destruct (Lifecycle.calloc_ans ans) as [p|]; [|now repeat split].
  destruct (Lifecycle.get_socket_path _ _ _) as [path|];
    [|cbn; rewrite Nat.eqb_refl; now repeat split].
  destruct (Z.ltb_spec (Lifecycle.socket_ans ans) 0) as [Hs|Hs].
  { cbn. rewrite Nat.eqb_refl. now repeat split. }
  destruct (Z.ltb_spec (Lifecycle.bind_ans ans) 0) as [Hb|Hb].
  { cbn. rewrite Nat.eqb_refl, Z.eqb_refl. now repeat split. }
  destruct (Z.ltb_spec (Lifecycle.listen_ans ans) 0) as [Hl|Hl].
  { cbn. rewrite Nat.eqb_refl, Z.eqb_refl. now repeat split. }
  lia.
Qed.

Lemma socket_server_init_failure_witness :
  let result :=
    Lifecycle.socket_server_init 108 108
      (Lifecycle.mkAnswers (Some 7%nat) 1000 3 0 (-1)) tt
      (Lifecycle.mkOs [0; 1; 2] [] [] []) in
  fst result = None /\
  Lifecycle.open_fds (snd result) = [0; 1; 2] /\
  Lifecycle.heap (snd result) = [].
Proof.
  apply (socket_server_init_failure 108 108
           (Lifecycle.mkAnswers (Some 7%nat) 1000 3 0 (-1)) tt
           (Lifecycle.mkOs [0; 1; 2] [] [] [])).
  right. right. reflexivity.
Defined.

(** * Further properties of the listener *)

(** ** What a request does, whatever the response buffer *)

Lemma strcspn_prefix_has_no_space (s : cstr) :
  existsb (Ascii.eqb SPACE) (firstn (strcspn s [SPACE]) s) = false.
Proof.
  induction s as [|c s IH]; [reflexivity|].
  cbn [strcspn is_delim].
  destruct (Ascii.eqb c SPACE) eqn:E; [reflexivity|].
  cbn [firstn existsb]. now rewrite Ascii.eqb_sym, E, IH.
Qed.

(** The keyword is a plain word: no NUL and no space inside. *)
Lemma split_command_keyword_word (cmd_str : list ascii) (k : cstr) (arg : option cstr) :
  split_command cmd_str = (Some k, arg) ->
  cstring k = k /\ existsb (Ascii.eqb SPACE) k = false.
Proof.
  rewrite split_command_buffer. unfold split_buffer.
  set (b := firstn 255 (cstring cmd_str)).
  assert (Hb : cstring b = b)
    by (unfold b; rewrite cstring_firstn, cstring_idem; reflexivity).
  pose proof (cstring_skipn_fixed (strspn b [SPACE]) b Hb) as Hs.
  destruct (skipn (strspn b [SPACE]) b) as [|c t]; [discriminate|].
  cbv zeta. intros Heq. injection Heq as Hk _. subst k. split.
  - now rewrite cstring_firstn, Hs.
  - exact (strcspn_prefix_has_no_space (c :: t)).
Qed.

Section Requests.

Context {M : Type} `{TrackManager M}.

Ltac text_fixed :=
  repeat (rewrite cstring_app_fixed by (reflexivity || assumption)); try reflexivity;
  repeat match goal with E : cstring ?a = ?a |- _ => rewrite E end;
  try reflexivity.

Ltac text_form msg :=
  exists msg; split; [discriminate | (left + right); split; reflexivity].

Ltac text_short :=
  rewrite ?length_app; cbn [lit list_ascii_of_string List.length] in *; lia.

Ltac text_done msg effect :=
  split; [intros; reflexivity|];
  split; [text_form msg|];
  split; [text_short|];
  split; [text_fixed|];
  split; [effect|];
  try (intros Hpre; vm_compute in Hpre; discriminate Hpre).

(** A request decides a result, a reply text and an effect on the track
    manager; the response buffer and its size only decide how much of the
    text is stored.  The text has the protocol's form, at most 280 bytes and
    no NUL, and the track manager is called once or not at all. *)
Lemma process_command_text (cmd_str : list ascii) (w : world M) :
  exists rc out w',
    (forall response resp_size,
       process_command cmd_str response resp_size w
         = ((rc, snprintf response resp_size out), w')) /\
    well_formed_reply rc out /\
    (List.length out <= 280)%nat /\
    cstring out = out /\
    (w' = w \/ exists c m', w' = mkWorld m' (calls w ++ [c])) /\
    (has_prefix (lit "ERROR: Unknown command") out = true ->
     exists k, fst (split_command cmd_str) = Some k /\ ~ In k KEYWORDS).
Proof.
  unfold process_command.
  destruct (split_command cmd_str) as [[k|] arg] eqn:Es.
  2:{ exists (-1), (lit "ERROR: Empty command"), w.
      text_done (lit "Empty command") ltac:(left; reflexivity). }
  destruct (split_command_bounds _ _ _ Es) as (Hk & Hlen & Harg).
  destruct (split_command_keyword_word _ _ _ Es) as (Hkfix & _).
  destruct (find_handler_cases k)
    as [[-> E]|[[-> E]|[[-> E]|[[-> E]|[[-> E]|[[-> E]|[Hnot E]]]]]]]; rewrite E; clear E.
  - unfold handle_play. destruct arg as [a|]; [|cbn [missing]].
    + destruct (Harg a eq_refl) as (Hm & Ht & Hla). rewrite Hm, Ht.
      change (cstring a = a) in Ht.
      unfold bind, call_play, ret.
      destruct (track_manager_play (mgr w) a) as [[|] m'].
      * exists 0, (lit "OK: Playing track " ++ a), (mkWorld m' (calls w ++ [CallPlay a])).
        text_done (lit "Playing track " ++ a) ltac:(right; eauto).
      * exists (-1), (lit "ERROR: Failed to play track " ++ a),
          (mkWorld m' (calls w ++ [CallPlay a])).
        text_done (lit "Failed to play track " ++ a) ltac:(right; eauto).
    + exists (-1), (lit "ERROR: Missing track ID"), w.
      text_done (lit "Missing track ID") ltac:(left; reflexivity).
  - unfold handle_stop. destruct arg as [a|]; [|cbn [missing]].
    + destruct (Harg a eq_refl) as (Hm & Ht & Hla). rewrite Hm, Ht.
      change (cstring a = a) in Ht.
      unfold bind, call_stop, ret.
      destruct (track_manager_stop (mgr w) a) as [[|] m'].
      * exists 0, (lit "OK: Stopped track " ++ a), (mkWorld m' (calls w ++ [CallStop a])).
        text_done (lit "Stopped track " ++ a) ltac:(right; eauto).
      * exists (-1), (lit "ERROR: Failed to stop track " ++ a),
          (mkWorld m' (calls w ++ [CallStop a])).
        text_done (lit "Failed to stop track " ++ a) ltac:(right; eauto).
    + exists (-1), (lit "ERROR: Missing track ID"), w.
      text_done (lit "Missing track ID") ltac:(left; reflexivity).
  - unfold handle_stop_all, bind, call_stop_all, ret.
    destruct (track_manager_stop_all (mgr w)) as [[|] m'].
    + exists 0, (lit "OK: Stopped all tracks"), (mkWorld m' (calls w ++ [CallStopAll])).
      text_done (lit "Stopped all tracks") ltac:(right; eauto).
    + exists (-1), (lit "ERROR: Failed to stop all tracks"),
        (mkWorld m' (calls w ++ [CallStopAll])).
      text_done (lit "Failed to stop all tracks") ltac:(right; eauto).
  - exists 0, (lit "OK: Track listing not yet implemented"), w.
    text_done (lit "Track listing not yet implemented") ltac:(left; reflexivity).
  - exists 0, (lit "OK: Status not yet implemented"), w.
    text_done (lit "Status not yet implemented") ltac:(left; reflexivity).
  - exists 0, (lit "OK: Reload signal sent"), w.
    text_done (lit "Reload signal sent") ltac:(left; reflexivity).
  - exists (-1), (lit "ERROR: Unknown command '" ++ k ++ lit "'"), w.
    text_done (lit "Unknown command '" ++ k ++ lit "'") ltac:(left; reflexivity).
    intros _. exists k. split; [reflexivity | exact Hnot].
Qed.

End Requests.

(** ** Requests without a keyword *)

(** X1. A command string whose first 255 bytes are all spaces (the empty
    string included) has no keyword: the reply is exactly
    [ERROR: Empty command], the result is -1 and the track manager is not
    called.  The response buffer has room for the 20 bytes of the reply. *)
Theorem process_command_empty
    {M : Type} {TM : TrackManager M}
    (cmd_str : list ascii) (response : cstr) (resp_size : nat) (w : world M) :
  forallb (Ascii.eqb SPACE) (firstn 255 (cstring cmd_str)) = true ->
  (20 < resp_size)%nat ->
  process_command cmd_str response resp_size w
    = ((-1, lit "ERROR: Empty command"), w).
Proof.
  intros Hsp Hsize. unfold process_command.
  rewrite split_command_buffer. unfold split_buffer.
  set (b := firstn 255 (cstring cmd_str)) in *.
  pose proof (strspn_spaces b [] Hsp) as Hspn.
  rewrite app_nil_r in Hspn. cbn [strspn] in Hspn. rewrite Nat.add_0_r in Hspn.
  rewrite Hspn, skipn_all. unfold ret.
  rewrite snprintf_fits; [reflexivity|].
  cbn [lit list_ascii_of_string List.length]. lia.
Qed.

Lemma process_command_empty_witness :
  process_command (lit "   ") [] Server.RESPONSE_SIZE Stub.idle
    = ((-1, lit "ERROR: Empty command"), Stub.idle).
Proof.
  apply (process_command_empty (lit "   ") [] Server.RESPONSE_SIZE Stub.idle).
  - reflexivity.
  - apply Nat.ltb_lt. reflexivity.
Defined.

(** ** Stopping a track, stopping all, and the placeholders *)

(** X2. For every line that parses to the keyword [stop] with a track
    identifier [id], the track manager's [stop] is called once with [id];
    the result is 0 with the reply [OK: Stopped track <id>] when it
    succeeds, and -1 with [ERROR: Failed to stop track <id>] when it
    refuses.  The response buffer has room for 280 bytes. *)
Theorem process_command_stop
    {M : Type} {TM : TrackManager M}
    (cmd_str : list ascii) (id : cstr)
    (response : cstr) (resp_size : nat) (w : world M) :
  split_command cmd_str = (Some (lit "stop"), Some id) ->
  (280 < resp_size)%nat ->
  process_command cmd_str response resp_size w
    = (if fst (track_manager_stop (mgr w) id)
       then (0, lit "OK: Stopped track " ++ id)
       else (-1, lit "ERROR: Failed to stop track " ++ id),
       mkWorld (snd (track_manager_stop (mgr w) id)) (calls w ++ [CallStop id])).
Proof.
  intros Hsplit Hsize.
  destruct (split_command_bounds _ _ _ Hsplit) as (_ & _ & Harg).
  destruct (Harg id eq_refl) as (Hmiss & Htext & Hlen).
  cbn [lit list_ascii_of_string List.length] in Hlen.
  assert (Hf : find_handler (M:=M) COMMANDS (lit "stop") = Some handle_stop)
    by reflexivity.
  unfold process_command. rewrite Hsplit, Hf.
  unfold handle_stop. rewrite Hmiss, Htext.
  unfold bind, call_stop, ret.
  destruct (track_manager_stop (mgr w) id) as [[|] m']; cbn [fst snd];
    (rewrite snprintf_fits; [reflexivity|]);
    rewrite length_app; cbn [lit list_ascii_of_string List.length]; lia.
Qed.

Lemma process_command_stop_witness :
  process_command (lit "stop drums") [] Server.RESPONSE_SIZE
      (mkWorld [lit "drums"; lit "rain"] [])
    = ((0, lit "OK: Stopped track drums"),
       mkWorld [lit "rain"] [CallStop (lit "drums")]).
Proof.
  refine (eq_trans
            (process_command_stop (lit "stop drums") (lit "drums") [] Server.RESPONSE_SIZE
               (mkWorld [lit "drums"; lit "rain"] []) _ _) _).
  - reflexivity.
  - apply Nat.ltb_lt. reflexivity.
  - reflexivity.
Defined.

(** X3. For every line whose keyword is [stop-all], whatever follows the
    keyword is ignored: the track manager's [stop_all] is called once; the
    result is 0 with [OK: Stopped all tracks] when it succeeds and -1 with
    [ERROR: Failed to stop all tracks] when it refuses.  The response buffer
    has room for the 32 bytes of the longer reply. *)
Theorem process_command_stop_all
    {M : Type} {TM : TrackManager M}
    (cmd_str : list ascii) (arg : option cstr)
    (response : cstr) (resp_size : nat) (w : world M) :
  split_command cmd_str = (Some (lit "stop-all"), arg) ->
  (32 < resp_size)%nat ->
  process_command cmd_str response resp_size w
    = (if fst (track_manager_stop_all (mgr w))
       then (0, lit "OK: Stopped all tracks")
       else (-1, lit "ERROR: Failed to stop all tracks"),
       mkWorld (snd (track_manager_stop_all (mgr w))) (calls w ++ [CallStopAll])).
Proof.
  intros Hsplit Hsize.
  assert (Hf : find_handler (M:=M) COMMANDS (lit "stop-all") = Some handle_stop_all)
    by reflexivity.
  unfold process_command. rewrite Hsplit, Hf.
  unfold handle_stop_all, bind, call_stop_all, ret.
  destruct (track_manager_stop_all (mgr w)) as [[|] m']; cbn [fst snd];
    (rewrite snprintf_fits; [reflexivity|]);
    cbn [lit list_ascii_of_string List.length]; lia.
Qed.

Lemma process_command_stop_all_witness :
  process_command (lit "stop-all now please") [] Server.RESPONSE_SIZE
      (mkWorld [lit "drums"] [])
    = ((0, lit "OK: Stopped all tracks"), mkWorld [] [CallStopAll]).
Proof.
  refine (eq_trans
            (process_command_stop_all (lit "stop-all now please")
               (Some (lit "now please")) [] Server.RESPONSE_SIZE
               (mkWorld [lit "drums"] []) _ _) _).
  - reflexivity.
  - apply Nat.ltb_lt. reflexivity.
  - reflexivity.
Defined.

(** X4. The keywords [list], [status] and [reload] always succeed with
    their fixed reply, whatever argument follows, and leave the track
    manager alone.  The response buffer has room for the 37 bytes of the
    longest of the three replies. *)
Theorem process_command_placeholders
    {M : Type} {TM : TrackManager M}
    (cmd_str : list ascii) (k : cstr) (arg : option cstr)
    (response : cstr) (resp_size : nat) (w : world M) :
  split_command cmd_str = (Some k, arg) ->
  (37 < resp_size)%nat ->
  (k = lit "list" ->
     process_command cmd_str response resp_size w
       = ((0, lit "OK: Track listing not yet implemented"), w)) /\
  (k = lit "status" ->
     process_command cmd_str response resp_size w
       = ((0, lit "OK: Status not yet implemented"), w)) /\
  (k = lit "reload" ->
     process_command cmd_str response resp_size w
       = ((0, lit "OK: Reload signal sent"), w)).
Proof.
  intros Hsplit Hsize. unfold process_command. rewrite Hsplit.
  repeat split; intros ->.
  - assert (Hf : find_handler (M:=M) COMMANDS (lit "list") = Some handle_list)
      by reflexivity.
    rewrite Hf. unfold handle_list, ret.
    rewrite snprintf_fits; [reflexivity|].
    cbn [lit list_ascii_of_string List.length]. lia.
  - assert (Hf : find_handler (M:=M) COMMANDS (lit "status") = Some handle_status)
      by reflexivity.
    rewrite Hf. unfold handle_status, ret.
    rewrite snprintf_fits; [reflexivity|].
    cbn [lit list_ascii_of_string List.length]. lia.
  - assert (Hf : find_handler (M:=M) COMMANDS (lit "reload") = Some handle_reload)
      by reflexivity.
    rewrite Hf. unfold handle_reload, ret.
    rewrite snprintf_fits; [reflexivity|].
    cbn [lit list_ascii_of_string List.length]. lia.
Qed.

Lemma process_command_placeholders_witness :
  process_command (lit "status verbose") [] Server.RESPONSE_SIZE Stub.idle
    = ((0, lit "OK: Status not yet implemented"), Stub.idle).
Proof.
  refine (proj1 (proj2 (process_command_placeholders
            (lit "status verbose") (lit "status") (Some (lit "verbose"))
            [] Server.RESPONSE_SIZE Stub.idle _ _)) _).
  - reflexivity.
  - apply Nat.ltb_lt. reflexivity.
  - reflexivity.
Defined.

(** ** One request, at most one call *)

(** X5. Whatever the line, [process_command] either leaves the track
    manager and the call log exactly as they were, or makes one call into
    the track manager: the log grows by a single entry and earlier entries
    are kept. *)
Theorem process_command_calls_at_most_once
    {M : Type} {TM : TrackManager M}
    (cmd_str : list ascii) (response : cstr) (resp_size : nat) (w : world M) :
  snd (process_command cmd_str response resp_size w) = w \/
  exists c, calls (snd (process_command cmd_str response resp_size w)) = calls w ++ [c].
Proof.
  destruct (process_command_text cmd_str w)
    as (rc & out & w' & Heq & _ & _ & _ & Heff & _).
  rewrite Heq. cbn [snd].
  destruct Heff as [->|(c & m' & ->)]; [now left|right].
  exists c. reflexivity.
Qed.

(** ** The response buffer only stores the reply *)

(** X6. The result and the effect of a request do not depend on the
    response buffer: with any buffer content and any size they are those
    obtained with the server's empty 1024-byte buffer.  A buffer of size
    zero is left untouched; a buffer of size [room + 1] receives the first
    [room] bytes of the full reply, so the stored text is always shorter
    than the buffer. *)
Theorem process_command_any_buffer
    {M : Type} {TM : TrackManager M}
    (cmd_str : list ascii) (response : cstr) (resp_size : nat) (w : world M) :
  let full := process_command cmd_str [] Server.RESPONSE_SIZE w in
  let got := process_command cmd_str response resp_size w in
  fst (fst got) = fst (fst full) /\
  snd got = snd full /\
  match resp_size with
  | O => snd (fst got) = response
  | S room =>
      snd (fst got) = firstn room (snd (fst full)) /\
      (List.length (snd (fst got)) <= room)%nat
  end.
Proof.
  destruct (process_command_text cmd_str w)
    as (rc & out & w' & Heq & _ & Hlen & _).
  cbv zeta. rewrite !Heq. cbn [fst snd].
  split; [reflexivity|]. split; [reflexivity|].
  rewrite (snprintf_fits [] out Server.RESPONSE_SIZE)
    by (unfold Server.RESPONSE_SIZE; lia).
  destruct resp_size as [|room]; cbn [snprintf]; [reflexivity|].
  split; [reflexivity|].
  rewrite length_firstn. lia.
Qed.

(** ** The unknown-command reply *)

(** X7. The reply begins with [ERROR: Unknown command] only for a line
    whose keyword is not in the command table: no handler and no empty line
    produces it.  The response buffer has room for 280 bytes. *)
Theorem unknown_reply_means_unknown_keyword
    {M : Type} {TM : TrackManager M}
    (cmd_str : list ascii) (response : cstr) (resp_size : nat) (w : world M) :
  (280 < resp_size)%nat ->
  has_prefix (lit "ERROR: Unknown command")
             (snd (fst (process_command cmd_str response resp_size w))) = true ->
  exists k, fst (split_command cmd_str) = Some k /\ ~ In k KEYWORDS.
Proof.
  intros Hsize.
  destruct (process_command_text cmd_str w)
    as (rc & out & w' & Heq & _ & Hlen & _ & _ & Hunknown).
  rewrite Heq. cbn [fst snd].
  rewrite snprintf_fits by lia. exact Hunknown.
Qed.

Lemma unknown_reply_means_unknown_keyword_witness :
  exists k, fst (split_command (lit "pause track42")) = Some k /\ ~ In k KEYWORDS.
Proof.
  apply (unknown_reply_means_unknown_keyword
           (lit "pause track42") [] Server.RESPONSE_SIZE Stub.idle).
  - apply Nat.ltb_lt. reflexivity.
  - reflexivity.
Defined.

(** ** The accept loop, over any number of turns *)

Section LoopProperties.

Context {M : Type} `{TrackManager M}.

(** One turn of the loop that serves a request: what the loop does with the
    bytes read, in terms of the request's result text and effect. *)
Lemma server_loop_served (t : Server.turn) (rest : list Server.turn)
    (response : cstr) (w : world M) (n : Z) (stored : list ascii) :
  Server.running_at_test t = true ->
  0 <= Server.accept_ret t ->
  Server.sys_read (Server.read_ans t) (Server.BUFFER_SIZE - 1) = (n, stored) ->
  0 < n ->
  exists rc out w1,
    well_formed_reply rc out /\ (List.length out <= 280)%nat /\
    (w1 = w \/ exists c m', w1 = mkWorld m' (calls w ++ [c])) /\
    Server.server_loop (t :: rest) response w =
      (let '(acts, e, r, w') := Server.server_loop rest out w1 in
       (Server.Accept (Server.accept_ret t) ::
        Server.Read (Server.accept_ret t) (Server.BUFFER_SIZE - 1) n ::
        Server.LogDebug (lit "Received command: " ++ cstring (stored ++ [NUL])) ::
        Server.Write (Server.accept_ret t) out ::
        Server.Close (Server.accept_ret t) :: acts, e, r, w')).
Proof.
  intros Hrun Hfd Hread Hn.
  destruct (process_command_text (stored ++ [NUL]) w)
    as (rc & out & w1 & Heq & Hform & Hlen & Hfix & Heff & _).
  exists rc, out, w1. repeat split; try assumption.
  cbn [Server.server_loop]. rewrite Hrun. cbn [negb].
  replace (Server.accept_ret t <? 0) with false by (symmetry; apply Z.ltb_ge; exact Hfd).
  rewrite Hread.
  replace (n >? 0) with true by (symmetry; rewrite Z.gtb_ltb; apply Z.ltb_lt; exact Hn).
  rewrite Heq.
  rewrite snprintf_fits by (unfold Server.RESPONSE_SIZE; lia).
  unfold strlen. rewrite Hfix, firstn_all. reflexivity.
Qed.

Lemma sys_read_count (ans : Server.read_result) (count : nat) :
  fst (Server.sys_read ans count) <= Z.of_nat count.
Proof.
  destruct ans as [|data]; cbn [Server.sys_read fst]; [lia|].
  rewrite length_firstn. lia.
Qed.

End LoopProperties.

(** X8. Whatever the environment answers, for any number of turns, the
    accept loop serves one connection at a time: after a failed accept it
    goes back to accepting; after a successful one it reads once, writes at
    most one reply, on that same connection, and closes it before the next
    accept.  Every reply written has the protocol's form and is shorter than
    the response buffer. *)
Theorem server_loop_sequential
    {M : Type} {TM : TrackManager M}
    (turns : list Server.turn) (response : cstr) (w : world M) :
  sequential (fst (fst (fst (Server.server_loop turns response w)))).
Proof.
  revert response w. induction turns as [|t rest IH]; intros response w.
  - constructor.
  - destruct (Server.running_at_test t) eqn:Hrun.
    2:{ cbn [Server.server_loop]. rewrite Hrun. constructor. }
    destruct (Z.ltb_spec (Server.accept_ret t) 0) as [Hfd|Hfd].
    { cbn [Server.server_loop]. rewrite Hrun. cbn [negb].
      replace (Server.accept_ret t <? 0) with true by (symmetry; now apply Z.ltb_lt).
      specialize (IH response w).
      destruct (Server.server_loop rest response w) as [[[acts e] r] w'].
      cbn [fst] in *.
      destruct (Server.running_after_accept t); cbn [app].
      - now apply seq_accept_failed_logged.
      - now apply seq_accept_failed. }
    destruct (Server.sys_read (Server.read_ans t) (Server.BUFFER_SIZE - 1))
      as [n stored] eqn:Hread.
    pose proof (sys_read_count (Server.read_ans t) (Server.BUFFER_SIZE - 1)) as Hcount.
    rewrite Hread in Hcount. cbn [fst] in Hcount.
    destruct (Z.ltb_spec 0 n) as [Hn|Hn].
    + destruct (server_loop_served t rest response w n stored Hrun Hfd Hread Hn)
        as (rc & out & w1 & Hform & Hlen & _ & ->).
      specialize (IH out w1).
      destruct (Server.server_loop rest out w1) as [[[acts e] r] w'].
      cbn [fst] in *.
      apply seq_served with (rc := rc); try assumption; try lia.
      unfold Server.RESPONSE_SIZE. lia.
    + cbn [Server.server_loop]. rewrite Hrun. cbn [negb].
      replace (Server.accept_ret t <? 0) with false by (symmetry; now apply Z.ltb_ge).
      rewrite Hread.
      replace (n >? 0) with false by (symmetry; rewrite Z.gtb_ltb; now apply Z.ltb_ge).
      specialize (IH response w).
      destruct (Server.server_loop rest response w) as [[[acts e] r] w'].
      cbn [fst] in *.
      now apply seq_dropped.
Qed.

(** X9. Every connection the loop accepts it also closes, once and in the
    order of acceptance, and it closes nothing else: no descriptor of a
    client is left open, whatever was read and whatever the request was. *)
Theorem server_loop_closes_what_it_accepts
    {M : Type} {TM : TrackManager M}
    (turns : list Server.turn) (response : cstr) (w : world M) :
  closed (fst (fst (fst (Server.server_loop turns response w))))
    = accepted (fst (fst (fst (Server.server_loop turns response w)))).
Proof.
  revert response w. induction turns as [|t rest IH]; intros response w.
  - reflexivity.
  - destruct (Server.running_at_test t) eqn:Hrun.
    2:{ cbn [Server.server_loop]. rewrite Hrun. reflexivity. }
    destruct (Z.ltb_spec (Server.accept_ret t) 0) as [Hfd|Hfd].
    { cbn [Server.server_loop]. rewrite Hrun. cbn [negb].
      pose proof Hfd as Hneg. apply Z.ltb_lt in Hneg. rewrite Hneg.
      specialize (IH response w).
      destruct (Server.server_loop rest response w) as [[[acts e] r] w'].
      cbn [fst] in *.
      destruct (Server.running_after_accept t);
        cbn [app closed accepted]; rewrite Hneg; exact IH. }
    pose proof Hfd as Hpos. apply Z.ltb_ge in Hpos.
    destruct (Server.sys_read (Server.read_ans t) (Server.BUFFER_SIZE - 1))
      as [n stored] eqn:Hread.
    destruct (Z.ltb_spec 0 n) as [Hn|Hn].
    + destruct (server_loop_served t rest response w n stored Hrun Hfd Hread Hn)
        as (rc & out & w1 & _ & _ & _ & ->).
      specialize (IH out w1).
      destruct (Server.server_loop rest out w1) as [[[acts e] r] w'].
      cbn [fst closed accepted] in *. rewrite Hpos. now f_equal.
    + cbn [Server.server_loop]. rewrite Hrun. cbn [negb]. rewrite Hpos, Hread.
      replace (n >? 0) with false by (symmetry; rewrite Z.gtb_ltb; now apply Z.ltb_ge).
      specialize (IH response w).
      destruct (Server.server_loop rest response w) as [[[acts e] r] w'].
      cbn [fst closed accepted] in *. rewrite Hpos. now f_equal.
Qed.

(** X10. The loop ends only by the running flag: over any turns it stops
    exactly when some loop test sees the flag cleared.  Failed accepts,
    failed or empty reads and failing requests never end it. *)
Theorem server_loop_stops_on_flag_only
    {M : Type} {TM : TrackManager M}
    (turns : list Server.turn) (response : cstr) (w : world M) :
  snd (fst (fst (Server.server_loop turns response w))) = Server.Stopped <->
  existsb (fun t => negb (Server.running_at_test t)) turns = true.
Proof.
  revert response w. induction turns as [|t rest IH]; intros response w.
  - cbn. split; discriminate.
  - cbn [Server.server_loop existsb].
    destruct (Server.running_at_test t); cbn [negb orb]; [|now split].
    destruct (Server.accept_ret t <? 0).
    { specialize (IH response w).
      destruct (Server.server_loop rest response w) as [[[acts e] r] w'].
      exact IH. }
    destruct (Server.sys_read (Server.read_ans t) (Server.BUFFER_SIZE - 1))
      as [n stored].
    destruct (n >? 0).
    + destruct (process_command (stored ++ [NUL]) response Server.RESPONSE_SIZE w)
        as [[rc r1] w1].
      specialize (IH r1 w1).
      destruct (Server.server_loop rest r1 w1) as [[[acts e] r] w'].
      exact IH.
    + specialize (IH response w).
      destruct (Server.server_loop rest response w) as [[[acts e] r] w'].
      exact IH.
Qed.

(** X11. The loop handles turns strictly in order and carries its state
    along: running it over [ts1 ++ ts2] is running it over [ts1] and, unless
    it stopped there, going on over [ts2] from the response buffer and the
    track manager that [ts1] left.  Once stopped, later turns are never
    looked at. *)
Theorem server_loop_app
    {M : Type} {TM : TrackManager M}
    (ts1 ts2 : list Server.turn) (response : cstr) (w : world M) :
  Server.server_loop (ts1 ++ ts2) response w =
    let '(a1, e1, r1, w1) := Server.server_loop ts1 response w in
    match e1 with
    | Server.Stopped => (a1, Server.Stopped, r1, w1)
    | Server.Waiting =>
        let '(a2, e2, r2, w2) := Server.server_loop ts2 r1 w1 in
        (a1 ++ a2, e2, r2, w2)
    end.
Proof.
  revert response w. induction ts1 as [|t rest IH]; intros response w.
  - cbn [app Server.server_loop].
    destruct (Server.server_loop ts2 response w) as [[[a2 e2] r2] w2]. reflexivity.
  - cbn [app Server.server_loop].
    destruct (Server.running_at_test t); cbn [negb]; [|reflexivity].
    destruct (Server.accept_ret t <? 0).
    { rewrite IH.
      destruct (Server.server_loop rest response w) as [[[a1 e1] r1] w1].
      destruct e1; [reflexivity|].
      destruct (Server.server_loop ts2 r1 w1) as [[[a2 e2] r2] w2].
      now rewrite app_assoc. }
    destruct (Server.sys_read (Server.read_ans t) (Server.BUFFER_SIZE - 1))
      as [n stored].
    destruct (n >? 0).
    + destruct (process_command (stored ++ [NUL]) response Server.RESPONSE_SIZE w)
        as [[rc r0] w0].
      rewrite IH.
      destruct (Server.server_loop rest r0 w0) as [[[a1 e1] r1] w1].
      destruct e1; [reflexivity|].
      destruct (Server.server_loop ts2 r1 w1) as [[[a2 e2] r2] w2]. reflexivity.
    + rewrite IH.
      destruct (Server.server_loop rest response w) as [[[a1 e1] r1] w1].
      destruct e1; [reflexivity|].
      destruct (Server.server_loop ts2 r1 w1) as [[[a2 e2] r2] w2]. reflexivity.
Qed.

(** X12. Over any turns, the loop only ever adds to the track manager's
    call log, and it adds at most one call per reply written: a connection
    that is not answered causes no call. *)
Theorem server_loop_calls_bounded_by_replies
    {M : Type} {TM : TrackManager M}
    (turns : list Server.turn) (response : cstr) (w : world M) :
  exists new,
    calls (snd (Server.server_loop turns response w)) = calls w ++ new /\
    (List.length new
       <= List.length (written (fst (fst (fst (Server.server_loop turns response w))))))%nat.
Proof.
  revert response w. induction turns as [|t rest IH]; intros response w.
  - exists []. split; [now rewrite app_nil_r | reflexivity].
  - destruct (Server.running_at_test t) eqn:Hrun.
    2:{ cbn [Server.server_loop]. rewrite Hrun. exists [].
        split; [now rewrite app_nil_r | reflexivity]. }
    destruct (Z.ltb_spec (Server.accept_ret t) 0) as [Hfd|Hfd].
    { cbn [Server.server_loop]. rewrite Hrun. cbn [negb].
      apply Z.ltb_lt in Hfd. rewrite Hfd.
      destruct (IH response w) as (new & Hcalls & Hlen).
      destruct (Server.server_loop rest response w) as [[[acts e] r] w'].
      cbn [fst snd] in *. exists new. split; [exact Hcalls|].
      destruct (Server.running_after_accept t); cbn [app written]; exact Hlen. }
    destruct (Server.sys_read (Server.read_ans t) (Server.BUFFER_SIZE - 1))
      as [n stored] eqn:Hread.
    destruct (Z.ltb_spec 0 n) as [Hn|Hn].
    + destruct (server_loop_served t rest response w n stored Hrun Hfd Hread Hn)
        as (rc & out & w1 & _ & _ & Heff & ->).
      destruct (IH out w1) as (new & Hcalls & Hlen).
      destruct (Server.server_loop rest out w1) as [[[acts e] r] w'].
      cbn [fst snd written] in *.
      destruct Heff as [->|(c & m' & ->)].
      * exists new. split; [exact Hcalls|]. cbn [List.length]. lia.
      * exists (c :: new). cbn [calls] in Hcalls.
        split; [now rewrite Hcalls, <- app_assoc|]. cbn [List.length]. lia.
    + cbn [Server.server_loop]. rewrite Hrun. cbn [negb].
      apply Z.ltb_ge in Hfd. rewrite Hfd, Hread.
      replace (n >? 0) with false by (symmetry; rewrite Z.gtb_ltb; now apply Z.ltb_ge).
      destruct (IH response w) as (new & Hcalls & Hlen).
      destruct (Server.server_loop rest response w) as [[[acts e] r] w'].
      cbn [fst snd written] in *. exists new. split; assumption.
Qed.

(** ** The socket path *)

(** Decimal text: one byte per digit, none of them NUL. *)
Lemma string_of_uint_length (d : Decimal.uint) :
  List.length (lit (NilEmpty.string_of_uint d)) = Decimal.nb_digits d.
Proof. induction d; cbn; auto. Qed.

Lemma string_of_uint_fixed (d : Decimal.uint) :
  cstring (lit (NilEmpty.string_of_uint d)) = lit (NilEmpty.string_of_uint d).
Proof.
  induction d; cbn [NilEmpty.string_of_uint lit list_ascii_of_string]; auto;
    change (list_ascii_of_string (NilEmpty.string_of_uint d))
      with (lit (NilEmpty.string_of_uint d));
    cbn [cstring]; rewrite IHd; reflexivity.
Qed.

Lemma of_uint_acc_lower (l : Decimal.uint) (acc : positive) :
  Z.pos acc * 10 ^ Z.of_nat (Decimal.nb_digits l) <= Z.pos (Pos.of_uint_acc l acc).
Proof.
  revert acc. induction l; intros acc;
    cbn [Decimal.nb_digits Pos.of_uint_acc]; [cbn; lia| ..];
    rewrite Nat2Z.inj_succ, Z.pow_succ_r by lia;
    match goal with
    | |- _ <= Z.pos (Pos.of_uint_acc _ ?a) =>
        specialize (IHl a);
        assert (Z.pos acc * 10 <= Z.pos a) by lia
    end;
    assert (0 < 10 ^ Z.of_nat (Decimal.nb_digits l)) by (apply Z.pow_pos_nonneg; lia);
    nia.
Qed.

Ltac digit_case l k :=
  match goal with
  | Hof : N.pos _ = N.pos _ |- _ => injection Hof as <-
  end;
  pose proof (of_uint_acc_lower l k);
  assert (0 < 10 ^ Z.of_nat (Decimal.nb_digits l)) by (apply Z.pow_pos_nonneg; lia);
  replace (S (Decimal.nb_digits l) - 1)%nat with (Decimal.nb_digits l) by lia;
  lia.

(** A positive number below [10^10] prints in at most ten digits. *)
Lemma to_uint_digits (p : positive) :
  Z.pos p < 10 ^ 10 -> (Decimal.nb_digits (Pos.to_uint p) <= 10)%nat.
Proof.
  intros Hp.
  pose proof (DecimalPos.Unsigned.of_to p) as Hof.
  pose proof (DecimalPos.Unsigned.to_of (Pos.to_uint p)) as Hnorm.
  rewrite Hof in Hnorm. cbn [N.to_uint] in Hnorm.
  pose proof (DecimalPos.Unsigned.to_uint_nonzero p) as Hnz.
  assert (Hlow : 10 ^ Z.of_nat (Decimal.nb_digits (Pos.to_uint p) - 1) <= Z.pos p).
  { destruct (Pos.to_uint p) as [|l|l|l|l|l|l|l|l|l|l] eqn:Ed;
      cbn [Decimal.nb_digits Pos.of_uint] in *;
      rewrite ?Nat.sub_0_r.
    - cbn. lia.
    - exfalso. rewrite DecimalFacts.unorm_D0 in Hnorm.
      assert (Hl : l = Decimal.Nil \/ l <> Decimal.Nil)
        by (destruct l; [left; reflexivity | right; discriminate ..]).
      destruct Hl as [->|Hl]; [now apply Hnz|].
      pose proof (DecimalFacts.nb_digits_unorm l Hl) as Hle.
      rewrite <- Hnorm in Hle. cbn [Decimal.nb_digits] in Hle. lia.
    - digit_case l 1%positive.
    - digit_case l 2%positive.
    - digit_case l 3%positive.
    - digit_case l 4%positive.
    - digit_case l 5%positive.
    - digit_case l 6%positive.
    - digit_case l 7%positive.
    - digit_case l 8%positive.
    - digit_case l 9%positive. }
  destruct (Nat.le_gt_cases (Decimal.nb_digits (Pos.to_uint p)) 10) as [|Hgt]; [assumption|].
  exfalso.
  assert (10 ^ 10 <= 10 ^ Z.of_nat (Decimal.nb_digits (Pos.to_uint p) - 1))
    by (apply Z.pow_le_mono_r; lia).
  lia.
Qed.

Lemma int_of_uid_range (uid : Z) :
  - 2 ^ 31 <= Lifecycle.int_of_uid uid < 2 ^ 31.
Proof.
  unfold Lifecycle.int_of_uid.
  pose proof (Z.mod_pos_bound (uid + 2 ^ 31) (2 ^ 32) ltac:(lia)). lia.
Qed.

Lemma int_of_uid_inj (u1 u2 : Z) :
  0 <= u1 < 2 ^ 32 -> 0 <= u2 < 2 ^ 32 ->
  Lifecycle.int_of_uid u1 = Lifecycle.int_of_uid u2 -> u1 = u2.
Proof.
  unfold Lifecycle.int_of_uid. intros H1 H2 E.
  assert (E' : (u1 + 2 ^ 31) mod 2 ^ 32 = (u2 + 2 ^ 31) mod 2 ^ 32) by lia.
  destruct (Z_lt_le_dec u1 (2 ^ 31)), (Z_lt_le_dec u2 (2 ^ 31)).
  - rewrite !Z.mod_small in E' by lia. lia.
  - rewrite (Z.mod_small (u1 + 2 ^ 31)) in E' by lia.
    replace (u2 + 2 ^ 31) with (u2 - 2 ^ 31 + 1 * 2 ^ 32) in E' by lia.
    rewrite Z.mod_add, Z.mod_small in E' by lia. lia.
  - rewrite (Z.mod_small (u2 + 2 ^ 31)) in E' by lia.
    replace (u1 + 2 ^ 31) with (u1 - 2 ^ 31 + 1 * 2 ^ 32) in E' by lia.
    rewrite Z.mod_add, Z.mod_small in E' by lia. lia.
  - replace (u1 + 2 ^ 31) with (u1 - 2 ^ 31 + 1 * 2 ^ 32) in E' by lia.
    replace (u2 + 2 ^ 31) with (u2 - 2 ^ 31 + 1 * 2 ^ 32) in E' by lia.
    rewrite !Z.mod_add, !Z.mod_small in E' by lia. lia.
Qed.

(** The text of ["%d"] for an [int]: at most eleven bytes, none NUL. *)
Lemma fmt_d_length (n : Z) :
  - 2 ^ 31 <= n < 2 ^ 31 -> (List.length (fmt_d n) <= 11)%nat.
Proof.
  intros Hn. unfold fmt_d. destruct n as [|p|p]; [cbn; lia| |].
  - cbn [Z.to_int NilZero.string_of_int].
    pose proof (DecimalPos.Unsigned.to_uint_nonnil p) as Hnil.
    pose proof (to_uint_digits p ltac:(lia)) as Hd.
    destruct (Pos.to_uint p) eqn:E; [congruence| ..];
      cbn [NilZero.string_of_uint]; rewrite string_of_uint_length; lia.
  - cbn [Z.to_int NilZero.string_of_int].
    pose proof (DecimalPos.Unsigned.to_uint_nonnil p) as Hnil.
    pose proof (to_uint_digits p ltac:(lia)) as Hd.
    change (lit (String "-" (NilZero.string_of_uint (Pos.to_uint p))))
      with ("-"%char :: lit (NilZero.string_of_uint (Pos.to_uint p))).
    cbn [List.length].
    destruct (Pos.to_uint p) eqn:E; [congruence| ..];
      cbn [NilZero.string_of_uint]; rewrite string_of_uint_length; lia.
Qed.

Lemma fmt_d_fixed (n : Z) : cstring (fmt_d n) = fmt_d n.
Proof.
  unfold fmt_d. destruct n as [|p|p]; [reflexivity| |].
  - cbn [Z.to_int NilZero.string_of_int].
    destruct (Pos.to_uint p) eqn:E; [reflexivity| ..];
      cbn [NilZero.string_of_uint]; apply string_of_uint_fixed.
  - cbn [Z.to_int NilZero.string_of_int].
    change (lit (String "-" (NilZero.string_of_uint (Pos.to_uint p))))
      with ("-"%char :: lit (NilZero.string_of_uint (Pos.to_uint p))).
    cbn [cstring]. change (Ascii.eqb "-" NUL) with false. cbv iota. f_equal.
    destruct (Pos.to_uint p) eqn:E; [reflexivity| ..];
      cbn [NilZero.string_of_uint]; apply string_of_uint_fixed.
Qed.

Lemma fmt_d_inj (a b : Z) : fmt_d a = fmt_d b -> a = b.
Proof.
  unfold fmt_d, lit. intros E.
  apply (f_equal string_of_list_ascii) in E.
  rewrite !string_of_list_ascii_of_string in E.
  apply (f_equal NilZero.int_of_string) in E.
  assert (Hnn : forall z, Z.to_int z <> Decimal.Pos Decimal.Nil /\
                          Z.to_int z <> Decimal.Neg Decimal.Nil).
  { intros [|p|p]; cbn [Z.to_int]; split; try discriminate;
      intros [= Hp]; now apply (DecimalPos.Unsigned.to_uint_nonnil p). }
  rewrite !NilZero.isi in E by apply Hnn.
  injection E as E. now apply DecimalZ.to_int_inj.
Qed.

(** The path is formatted whole as soon as the buffer has 42 bytes. *)
Lemma get_socket_path_text_of (uid : Z) (content : cstr) (size : nat) :
  (41 < size)%nat ->
  Lifecycle.get_socket_path uid (Some content) size = Some (socket_path_text uid) /\
  (List.length (socket_path_text uid) <= 41)%nat.
Proof.
  intros Hsize.
  pose proof (fmt_d_length _ (int_of_uid_range uid)) as Hd.
  assert (Hlen : (List.length (socket_path_text uid) <= 41)%nat).
  { unfold socket_path_text. rewrite !length_app.
    cbn [lit list_ascii_of_string List.length]. lia. }
  split; [|exact Hlen].
  unfold Lifecycle.get_socket_path.
  destruct size as [|room]; [lia|]. cbn [Nat.eqb].
  rewrite (snprintf_fits [] _ 256)
    by (rewrite !length_app; cbn [lit list_ascii_of_string List.length]; lia).
  replace ((lit "/var/run/user/" ++ fmt_d (Lifecycle.int_of_uid uid) ++ lit "/papa")
             ++ lit "/papad.sock")
    with (socket_path_text uid)
    by (unfold socket_path_text; now rewrite <- !app_assoc).
  rewrite snprintf_fits by lia. reflexivity.
Qed.

(** X13. For every user id, given a non-NULL buffer of at least 42 bytes,
    [get_socket_path] writes the whole path
    [/var/run/user/<uid as int>/papa/papad.sock], which is never longer
    than 41 bytes; nothing is cut. *)
Theorem get_socket_path_whole
    (uid : Z) (content : cstr) (size : nat) :
  (41 < size)%nat ->
  Lifecycle.get_socket_path uid (Some content) size = Some (socket_path_text uid) /\
  (List.length (socket_path_text uid) <= 41)%nat.
Proof. exact (get_socket_path_text_of uid content size). Qed.

Lemma get_socket_path_whole_witness :
  Lifecycle.get_socket_path 1000 (Some []) 108
    = Some (lit "/var/run/user/1000/papa/papad.sock") /\
  (List.length (socket_path_text 1000) <= 41)%nat.
Proof.
  apply (get_socket_path_whole 1000 [] 108).
  apply Nat.ltb_lt. reflexivity.
Defined.

(** X14. Two users never share a socket path: for distinct user ids in
    the 32-bit range and buffers of at least 42 bytes, [get_socket_path]
    gives distinct paths. *)
Theorem get_socket_path_unique
    (u1 u2 : Z) (c1 c2 : cstr) (size : nat) :
  0 <= u1 < 2 ^ 32 -> 0 <= u2 < 2 ^ 32 ->
  (41 < size)%nat ->
  u1 <> u2 ->
  Lifecycle.get_socket_path u1 (Some c1) size <> Lifecycle.get_socket_path u2 (Some c2) size.
Proof.
  intros H1 H2 Hsize Hne.
  destruct (get_socket_path_text_of u1 c1 size Hsize) as [-> _].
  destruct (get_socket_path_text_of u2 c2 size Hsize) as [-> _].
  unfold socket_path_text. intros E. apply Hne.
  apply (f_equal (fun o => match o with Some t => t | None => [] end)) in E.
  apply app_inv_head in E. rewrite !app_assoc in E. apply app_inv_tail in E.
  apply app_inv_tail in E.
  apply fmt_d_inj in E. now apply int_of_uid_inj.
Qed.

Lemma get_socket_path_unique_witness :
  Lifecycle.get_socket_path 1000 (Some []) 108
    <> Lifecycle.get_socket_path 4294967295 (Some []) 108.
Proof.
  apply (get_socket_path_unique 1000 4294967295 [] [] 108).
  - split; [apply Z.leb_le | apply Z.ltb_lt]; reflexivity.
  - split; [apply Z.leb_le | apply Z.ltb_lt]; reflexivity.
  - apply Nat.ltb_lt. reflexivity.
  - discriminate.
Defined.

(** ** The life of a listener *)

Lemma cstr_eqb_refl (a : cstr) : Lifecycle.cstr_eqb a a = true.
Proof. apply strcmp_eqb_refl. Qed.

Lemma socket_path_text_fixed (uid : Z) :
  cstring (socket_path_text uid) = socket_path_text uid.
Proof.
  unfold socket_path_text.
  rewrite cstring_app_fixed by reflexivity.
  rewrite cstring_app_fixed by apply fmt_d_fixed.
  reflexivity.
Qed.

(** The address handed to [bind] and [connect] is the socket path itself
    when the path fits [sun_path]. *)
Lemma sun_path_is_path (uid : Z) (SUN_PATH_SIZE : nat) :
  (41 < SUN_PATH_SIZE)%nat ->
  cstring (strncpy (socket_path_text uid) (SUN_PATH_SIZE - 1) ++ [NUL])
    = socket_path_text uid.
Proof.
  intros Hsun. rewrite cstring_strncpy, socket_path_text_fixed.
  apply firstn_all2.
  pose proof (proj2 (get_socket_path_text_of uid [] 42 ltac:(lia))). lia.
Qed.

(** [chmod] on a path changes nothing among files that are not at it. *)
Lemma chmod_elsewhere (path : cstr) (mode : Z) (l : list (cstr * Z)) :
  map (fun f => if Lifecycle.cstr_eqb (fst f) path then (fst f, mode) else f)
      (filter (fun f => negb (Lifecycle.cstr_eqb (fst f) path)) l)
    = filter (fun f => negb (Lifecycle.cstr_eqb (fst f) path)) l.
Proof.
  induction l as [|f l IH]; [reflexivity|].
  cbn [filter]. destruct (Lifecycle.cstr_eqb (fst f) path) eqn:E; cbn [negb]; [exact IH|].
  cbn [map]. now rewrite E, IH.
Qed.


(** What a successful initialisation returns and leaves. *)
Lemma socket_server_init_ok {M : Type} (SOCKET_PATH_SIZE SUN_PATH_SIZE : nat)
    (ans : Lifecycle.init_answers) (tm : M) (os : Lifecycle.os_state) (p : nat) :
  Lifecycle.calloc_ans ans = Some p ->
  0 <= Lifecycle.socket_ans ans -> 0 <= Lifecycle.bind_ans ans ->
  0 <= Lifecycle.listen_ans ans ->
  (41 < SOCKET_PATH_SIZE)%nat -> (41 < SUN_PATH_SIZE)%nat ->
  let path := socket_path_text (Lifecycle.getuid_ans ans) in
  Lifecycle.socket_server_init SOCKET_PATH_SIZE SUN_PATH_SIZE ans tm os =
    (Some (p, Lifecycle.mkCtx path (Lifecycle.socket_ans ans) false 0 tm),
     Lifecycle.mkOs
       (Lifecycle.socket_ans ans :: Lifecycle.open_fds os)
       (p :: Lifecycle.heap os)
       ((path, 438) ::
          filter (fun f => negb (Lifecycle.cstr_eqb (fst f) path)) (Lifecycle.files os))
       (Lifecycle.os_log os ++
          [Server.LogInfo (lit "Socket server initialized at " ++ path)])).
Proof.
  intros Hc Hs Hb Hl Hsp Hsun path. subst path.
  unfold Lifecycle.socket_server_init. rewrite Hc.
  pose proof (proj1 (get_socket_path_text_of (Lifecycle.getuid_ans ans) [] _ Hsp)) as Hp.
  unfold cstr in Hp. rewrite Hp. clear Hp.
  apply Z.ltb_ge in Hs, Hb, Hl. rewrite Hs, Hb, Hl.
  rewrite (sun_path_is_path _ _ Hsun).
  unfold Lifecycle.sys_log, Lifecycle.sys_chmod, Lifecycle.sys_bound,
    Lifecycle.sys_open, Lifecycle.sys_unlink, Lifecycle.sys_alloc.
  cbn [Lifecycle.open_fds Lifecycle.heap Lifecycle.files Lifecycle.os_log map fst].
  rewrite cstr_eqb_refl, chmod_elsewhere. reflexivity.
Qed.

(** X15. When [calloc], [socket], [bind] and [listen] all succeed (and the
    path fits both the context's field and [sun_path]), initialisation
    returns a context that is not running, holds the socket's descriptor and
    the user's socket path; that descriptor is open, the context is on the
    heap, and at the socket path there is exactly the new socket file, with
    mode 0666: a stale file at that path is gone, other files are
    untouched. *)
Theorem socket_server_init_success
    {M : Type} (SOCKET_PATH_SIZE SUN_PATH_SIZE : nat)
    (ans : Lifecycle.init_answers) (tm : M) (os : Lifecycle.os_state) (p : nat) :
  Lifecycle.calloc_ans ans = Some p ->
  0 <= Lifecycle.socket_ans ans -> 0 <= Lifecycle.bind_ans ans ->
  0 <= Lifecycle.listen_ans ans ->
  (41 < SOCKET_PATH_SIZE)%nat -> (41 < SUN_PATH_SIZE)%nat ->
  let path := socket_path_text (Lifecycle.getuid_ans ans) in
  Lifecycle.socket_server_init SOCKET_PATH_SIZE SUN_PATH_SIZE ans tm os =
    (Some (p, Lifecycle.mkCtx path (Lifecycle.socket_ans ans) false 0 tm),
     Lifecycle.mkOs
       (Lifecycle.socket_ans ans :: Lifecycle.open_fds os)
       (p :: Lifecycle.heap os)
       ((path, 438) ::
          filter (fun f => negb (Lifecycle.cstr_eqb (fst f) path)) (Lifecycle.files os))
       (Lifecycle.os_log os ++
          [Server.LogInfo (lit "Socket server initialized at " ++ path)])).
Proof. exact (socket_server_init_ok SOCKET_PATH_SIZE SUN_PATH_SIZE ans tm os p). Qed.

Lemma socket_server_init_success_witness :
  Lifecycle.socket_server_init 108 108
      (Lifecycle.mkAnswers (Some 7%nat) 1000 3 0 0) tt
      (Lifecycle.mkOs [0; 1; 2] []
         [(lit "/var/run/user/1000/papa/papad.sock", 493); (lit "/tmp/other", 420)] [])
  = (Some (7%nat,
           Lifecycle.mkCtx (lit "/var/run/user/1000/papa/papad.sock") 3 false 0 tt),
     Lifecycle.mkOs [3; 0; 1; 2] [7%nat]
       [(lit "/var/run/user/1000/papa/papad.sock", 438); (lit "/tmp/other", 420)]
       [Server.LogInfo
          (lit "Socket server initialized at /var/run/user/1000/papa/papad.sock")]).
Proof.
  refine (eq_trans
            (socket_server_init_success 108 108
               (Lifecycle.mkAnswers (Some 7%nat) 1000 3 0 0) tt
               (Lifecycle.mkOs [0; 1; 2] []
                  [(lit "/var/run/user/1000/papa/papad.sock", 493);
                   (lit "/tmp/other", 420)] [])
               7%nat _ _ _ _ _ _) _).
  - reflexivity.
  - apply Z.leb_le. reflexivity.
  - apply Z.leb_le. reflexivity.
  - apply Z.leb_le. reflexivity.
  - apply Nat.ltb_lt. reflexivity.
  - apply Nat.ltb_lt. reflexivity.
  - reflexivity.
Defined.







(** ** Line endings *)

(** X19. The parser does not trim a line ending: a known keyword followed
    directly by a newline is looked up with the newline as its last byte,
    finds no handler, and is answered [ERROR: Unknown command], with the
    keyword and its newline between the quotes; the track manager is not
    called.  The response buffer has room for 280 bytes. *)
Theorem newline_is_part_of_the_keyword
    {M : Type} {TM : TrackManager M}
    (k : cstr) (response : cstr) (resp_size : nat) (w : world M) :
  In k KEYWORDS ->
  (280 < resp_size)%nat ->
  process_command (k ++ ["010"%char]) response resp_size w
    = ((-1, lit "ERROR: Unknown command '" ++ k ++ ["010"%char] ++ lit "'"), w).
Proof.
  intros Hk Hsize.
  assert (Hsplit : split_command (k ++ ["010"%char]) = (Some (k ++ ["010"%char]), None)).
  { unfold KEYWORDS in Hk. cbn [In] in Hk.
    destruct Hk as [<-|[<-|[<-|[<-|[<-|[<-|[]]]]]]]; reflexivity. }
  assert (Hnot : ~ In (k ++ ["010"%char]) KEYWORDS).
  { unfold KEYWORDS in *. cbn [In] in *.
    destruct Hk as [<-|[<-|[<-|[<-|[<-|[<-|[]]]]]]]; intuition discriminate. }
  destruct (split_command_bounds _ _ _ Hsplit) as (_ & Hlen & _).
  unfold process_command. rewrite Hsplit, (find_handler_unknown _ Hnot).
  unfold ret. rewrite <- app_assoc. rewrite snprintf_fits; [reflexivity|].
  rewrite !length_app in *. cbn [lit list_ascii_of_string List.length] in *. lia.
Qed.

Lemma newline_is_part_of_the_keyword_witness :
  process_command (lit "list" ++ ["010"%char]) [] Server.RESPONSE_SIZE Stub.idle
    = ((-1, lit "ERROR: Unknown command 'list" ++ ["010"%char] ++ lit "'"), Stub.idle).
Proof.
  apply (newline_is_part_of_the_keyword (lit "list") [] Server.RESPONSE_SIZE Stub.idle).
  - unfold KEYWORDS. cbn [In]. tauto.
  - apply Nat.ltb_lt. reflexivity.
Defined.
